(** * job_search_emailer.py: a shallow embedding and its verified properties

    The script queries a search provider once per configured query,
    deduplicates the collected results by link, renders them as an HTML
    table and mails the table.  Python dictionaries are modelled as finite
    maps from keys to Python values, the [seen] set as a finite set, and
    the effects of [main] (HTTP calls, SMTP session, [print]) in a small
    state-and-exception monad over an explicit world. *)

From stdpp Require Import gmap strings list pretty.

(** ** Python values and dictionaries *)

(** The values a result field can hold: [None], or a [str].  The data model
    of the script has string fields only; a key that is absent from a
    dictionary reads as [None] through [dict.get]. *)
Inductive pyval : Type :=
  | PyNone
  | PyStr (s : string).

#[global] Instance pyval_eq_dec : EqDecision pyval.
Proof. solve_decision. Defined.

Definition pyval_to_option (v : pyval) : option string :=
  match v with PyNone => None | PyStr s => Some s end.

Definition pyval_of_option (o : option string) : pyval :=
  match o with None => PyNone | Some s => PyStr s end.

#[global] Program Instance pyval_countable : Countable pyval :=
  inj_countable' pyval_to_option pyval_of_option _.
Next Obligation. by intros []. Qed.

(** A search result is a Python [dict] with string keys. *)
Abbreviation SearchResult := (gmap string pyval).

(** [d.get(k)]: the value under [k], [None] when the key is absent. *)
Definition get (d : SearchResult) (k : string) : pyval :=
  default PyNone (d !! k).

(** Python truthiness: [None] and the empty string are false. *)
Definition truthy (v : pyval) : bool :=
  match v with
  | PyNone => false
  | PyStr s => negb (String.eqb s EmptyString)
  end.

(** [v or d] for a string default [d]. *)
Definition or_default (v : pyval) (d : string) : string :=
  match v with
  | PyStr s => if truthy v then s else d
  | PyNone => d
  end.

(** ** Configuration *)

Definition MAX_RESULTS : nat := 20.

(** The double-quote character, and a phrase between double quotes. *)
Definition dquote : string := String (Ascii.ascii_of_nat 34) EmptyString.

Definition quoted (phrase : string) : string := dquote +:+ phrase +:+ dquote.

Definition SEARCH_QUERIES : list string :=
  [ "site:linkedin.com " +:+ quoted "entry level" +:+ " "
      +:+ quoted "machine learning engineer" +:+ " OR " +:+ quoted "AI engineer";
    "site:indeed.com " +:+ quoted "entry level" +:+ " "
      +:+ quoted "machine learning" +:+ " " +:+ quoted "engineer";
    "site:angel.co " +:+ quoted "machine learning engineer" +:+ " "
      +:+ quoted "junior";
    quoted "entry level" +:+ " " +:+ quoted "AI Engineer" +:+ " "
      +:+ quoted "new grad" ].

(** ** Exceptions, the environment and the world *)

(** A raised Python exception: whether its class derives from [Exception]
    (what [except Exception] catches; [KeyboardInterrupt] and [SystemExit]
    do not), and its [str]. *)
Record exn : Type := Exn {
  is_Exception : bool;
  exn_str : string
}.

(** The outcome of a call: a value, or a raised exception. *)
Inductive res (A : Type) : Type :=
  | Ret (a : A)
  | Raise (e : exn).
Arguments Ret {A} a.
Arguments Raise {A} e.

(** The provider's JSON document, as far as the script reads it: the
    [organic_results] array, when the key is present. *)
Record SerpJson : Type := {
  organic_results : option (list SearchResult)
}.

(** The parameters of the search request. *)
Record Params : Type := {
  p_engine : string;
  p_q : string;
  p_num : nat;
  p_google_domain : string;
  p_gl : string;
  p_hl : string;
  p_api_key : pyval
}.

(** The response object of [requests.get], with the two methods called on
    it. *)
Record Response : Type := {
  raise_for_status : res unit;
  json : res SerpJson
}.

(** The wall clock, to the minute. *)
Record datetime : Type := {
  year : nat;
  month : nat;
  day : nat;
  hour : nat;
  minute : nat
}.

(** The message handed to the SMTP session. *)
Record EmailMessage : Type := {
  msg_subject : string;
  msg_from : pyval;
  msg_to : pyval;
  msg_html : string
}.

(** What the process does to the outside, in order. *)
Inductive event : Type :=
  | HttpGet (url : string) (params : Params) (timeout : nat)
  | SmtpConnect (host : string) (port : nat)
  | SmtpStartTls
  | SmtpLogin (user pass : pyval)
  | SmtpSendmail (sender recipient : pyval) (msg : EmailMessage)
  | SmtpQuit
  | SmtpClose.

(** How the server answers the QUIT that is sent when the session is
    left.  [SMTP.__exit__] passes over [SMTPServerDisconnected] and lets
    every other exception go on, among them the [SMTPResponseException]
    that it raises itself for a reply other than 221. *)
Inductive quit_reply : Type :=
  | QuitAccepted
  | QuitDisconnected
  | QuitRaises (e : exn).

(** What leaving the session makes of the answer to QUIT. *)
Definition quit_result (reply : quit_reply) : res unit :=
  match reply with
  | QuitAccepted => Ret tt
  | QuitDisconnected => Ret tt
  | QuitRaises e => Raise e
  end.

(** The environment of a run: the configuration read from the process
    environment, the clock, and how the search provider and the mail
    server answer. *)
Record Env : Type := {
  RECIPIENT : pyval;
  SENDER : pyval;
  SMTP_HOST : string;
  SMTP_PORT : nat;
  SMTP_USER : pyval;
  SMTP_PASS : pyval;
  SERPAPI_KEY : pyval;
  now : datetime;
  requests_get : string -> Params -> nat -> res Response;
  smtp_connect : string -> nat -> res unit;
  smtp_starttls : res unit;
  smtp_login : pyval -> pyval -> res unit;
  smtp_sendmail : pyval -> pyval -> EmailMessage -> res unit;
  smtp_quit : quit_reply
}.

(** The observable state of a run: the lines printed and the trace of
    calls made to the outside. *)
Record World : Type := {
  stdout : list string;
  trace : list event
}.

(** ** The monad of the script: environment, world and exceptions *)

Definition M (A : Type) : Type := Env -> World -> res A * World.

#[global] Instance M_ret : MRet M := fun A a _ w => (Ret a, w).

#[global] Instance M_bind : MBind M := fun A B k m env w =>
  match m env w with
  | (Ret a, w') => k a env w'
  | (Raise e, w') => (Raise e, w')
  end.

Definition ask : M Env := fun env w => (Ret env, w).

(** Lift the answer of the outside world into the monad. *)
Definition lift {A} (r : res A) : M A := fun _ w => (r, w).

Definition emit (ev : event) : M unit :=
  fun _ w => (Ret tt, {| stdout := stdout w; trace := trace w ++ [ev] |}).

(** [print(line)] *)
Definition print (line : string) : M unit :=
  fun _ w => (Ret tt, {| stdout := stdout w ++ [line]; trace := trace w |}).

(** [try: body / except Exception as e: handler(e)] *)
Definition try_except {A} (body : M A) (handler : exn -> M A) : M A :=
  fun env w =>
    match body env w with
    | (Ret a, w') => (Ret a, w')
    | (Raise e, w') =>
        if is_Exception e then handler e env w' else (Raise e, w')
    end.

(** [with ... as s: body]: [release] runs on every exit path of [body],
    and an exception of [body] is raised again after it. *)
Definition with_finally {A} (body : M A) (release : M unit) : M A :=
  fun env w =>
    match body env w with
    | (Ret a, w') =>
        match release env w' with
        | (Ret _, w'') => (Ret a, w'')
        | (Raise e, w'') => (Raise e, w'')
        end
    | (Raise e, w') =>
        match release env w' with
        | (Ret _, w'') => (Raise e, w'')
        | (Raise e', w'') => (Raise e', w'')
        end
    end.

(** ** Helpers *)

(** [requests.get(url, params=params, timeout=timeout)] *)
Definition requests_get_call (url : string) (params : Params) (timeout : nat)
  : M Response :=
  env ← ask;
  emit (HttpGet url params timeout);;
  lift (requests_get env url params timeout).

(** The [params] dictionary of [search_with_serpapi]. *)
Definition serpapi_params (query : string) (serpapi_key : pyval) (num : nat)
  : Params :=
  {| p_engine := "google";
     p_q := query;
     p_num := num;
     p_google_domain := "google.com";
     p_gl := "in";
     p_hl := "en";
     p_api_key := serpapi_key |}.

(** The call fails when the request, [raise_for_status] or the JSON
    decoding raises. *)
Definition search_with_serpapi (query : string) (serpapi_key : pyval)
    (num : nat) : M SerpJson :=
  let params := serpapi_params query serpapi_key num in
  r ← requests_get_call "https://serpapi.com/search.json" params 30;
  lift (raise_for_status r);;
  lift (json r).

(** The loop body of [extract_links_from_serpapi_json]: a fresh dictionary
    with exactly the three keys, each holding what [e.get] returned. *)
Definition extract_entry (e : SearchResult) : SearchResult :=
  let title := get e "title" in
  let link := get e "link" in
  let snippet := get e "snippet" in
  <["title" := title]> (<["link" := link]> (<["snippet" := snippet]> ∅)).

Definition extract_links_from_serpapi_json (js : SerpJson)
  : list SearchResult :=
  fold_left (fun results e => results ++ [extract_entry e])
            (default [] (organic_results js)) [].

(** Decimal rendering with leading zeros up to [width] digits, as [%m],
    [%d], [%H], [%M] print it, and [%Y] for the years from 1000 on. *)
Definition zero_pad (width n : nat) : string :=
  let digits := pretty n in
  String.concat EmptyString (replicate (width - String.length digits) "0")
    +:+ digits.

(** [strftime("%Y-%m-%d %H:%M IST")] *)
Definition strftime (d : datetime) : string :=
  zero_pad 4 (year d) +:+ "-" +:+ zero_pad 2 (month d) +:+ "-"
    +:+ zero_pad 2 (day d) +:+ " " +:+ zero_pad 2 (hour d) +:+ ":"
    +:+ zero_pad 2 (minute d) +:+ " IST".

(** [date.isoformat()] *)
Definition isoformat (d : datetime) : string :=
  zero_pad 4 (year d) +:+ "-" +:+ zero_pad 2 (month d) +:+ "-"
    +:+ zero_pad 2 (day d).

(** One pass of the row loop of [format_email_html]: [html += row]. *)
Definition format_row (html : string) (r : SearchResult) : string :=
  let title := or_default (get r "title") "No title" in
  let snippet := or_default (get r "snippet") EmptyString in
  let link := or_default (get r "link") EmptyString in
  html +:+ ("<tr><td>" +:+ title +:+ "</td><td>" +:+ snippet
             +:+ "</td><td><a href='" +:+ link +:+ "'>link</a></td></tr>").

(** The formatter reads the clock and builds the HTML by appending to
    [html]; field values go into the rows as they are.  Strings stand for
    their UTF-8 bytes. *)
Definition format_email_html (results : list SearchResult) : M string :=
  env ← ask;
  let dt := strftime (now env) in
  let html := "<h2>Daily Jobs — Entry-level AI (Collected " +:+ dt +:+ ")</h2>" in
  let html :=
    match results with
    | [] => html +:+ "<p>No results found.</p>"
    | _ :: _ =>
        let html := html +:+ "<table border='0' cellpadding='6' cellspacing='0'>" in
        let html := html +:+ "<tr><th align='left'>Title</th><th align='left'>Company / Snippet</th><th align='left'>Link</th></tr>" in
        let html := fold_left format_row results html in
        html +:+ "</table>"
    end in
  mret html.

(** The session is opened by [smtplib.SMTP(host, port)]; once it is open,
    leaving the [with] block sends QUIT and closes the connection, whether
    the block returned or raised.  A server that has gone away at QUIT is
    passed over; any other failure of QUIT is raised, after the close, in
    place of what the block raised. *)
Definition send_email_html (subject html_body : string) : M unit :=
  env ← ask;
  let msg := {| msg_subject := subject;
                msg_from := SENDER env;
                msg_to := RECIPIENT env;
                msg_html := html_body |} in
  emit (SmtpConnect (SMTP_HOST env) (SMTP_PORT env));;
  lift (smtp_connect env (SMTP_HOST env) (SMTP_PORT env));;
  with_finally
    (emit SmtpStartTls;;
     lift (smtp_starttls env);;
     emit (SmtpLogin (SMTP_USER env) (SMTP_PASS env));;
     lift (smtp_login env (SMTP_USER env) (SMTP_PASS env));;
     emit (SmtpSendmail (SENDER env) (RECIPIENT env) msg);;
     lift (smtp_sendmail env (SENDER env) (RECIPIENT env) msg))
    (with_finally (emit SmtpQuit;; lift (quit_result (smtp_quit env)))
       (emit SmtpClose)).

(** ** Main *)

(** The body of the deduplication loop of [main], up to the cap test: the
    state is the [seen] set and the [dedup] list, and an item is kept when
    [link and link not in seen]. *)
Definition dedup_step (item : SearchResult)
    (st : gset pyval * list SearchResult) : gset pyval * list SearchResult :=
  let '(seen, dedup) := st in
  let link := get item "link" in
  if truthy link && bool_decide (link ∉ seen)
  then ({[link]} ∪ seen, dedup ++ [item])
  else (seen, dedup).

(** [for item in aggregated: ...; if len(dedup) >= MAX_RESULTS: break] *)
Fixpoint dedup_loop (max_results : nat) (aggregated : list SearchResult)
    (seen : gset pyval) (dedup : list SearchResult)
  : gset pyval * list SearchResult :=
  match aggregated with
  | [] => (seen, dedup)
  | item :: rest =>
      let '(seen, dedup) := dedup_step item (seen, dedup) in
      if bool_decide (max_results ≤ length dedup)
      then (seen, dedup)
      else dedup_loop max_results rest seen dedup
  end.

(** The aggregator: the loop started from [seen = set()], [dedup = []]. *)
Definition deduplicate (aggregated : list SearchResult)
  : gset pyval * list SearchResult :=
  dedup_loop MAX_RESULTS aggregated ∅ [].

Definition aggregator (aggregated : list SearchResult) : list SearchResult :=
  (deduplicate aggregated).2.

(** [for q in SEARCH_QUERIES: try: ... except Exception as e: print(...)] *)
Fixpoint query_loop (serpapi_key : pyval) (queries : list string)
    (aggregated : list SearchResult) : M (list SearchResult) :=
  match queries with
  | [] => mret aggregated
  | q :: rest =>
      aggregated ←
        try_except
          (js ← search_with_serpapi q serpapi_key 10;
           let rs := extract_links_from_serpapi_json js in
           mret (aggregated ++ rs))
          (fun e =>
             print ("SerpAPI error for query: " +:+ q +:+ " => "
                      +:+ exn_str e);;
             mret aggregated);
      query_loop serpapi_key rest aggregated
  end.

Definition main : M unit :=
  env ← ask;
  let aggregated := [] in
  aggregated ←
    (if truthy (SERPAPI_KEY env)
     then query_loop (SERPAPI_KEY env) SEARCH_QUERIES aggregated
     else
       print "No SERPAPI_KEY provided; please provide one or configure RSS sources.";;
       mret aggregated);
  let dedup := aggregator aggregated in
  html ← format_email_html dedup;
  let subject := "[Daily] Entry-level AI Jobs — " +:+ isoformat (now env) in
  try_except
    (send_email_html subject html;;
     print ("Email sent, items: " +:+ pretty (length dedup)))
    (fun e => print ("Failed to send email: " +:+ exn_str e)).

(** ** Reference definitions for the run *)

Definition empty_world : World := {| stdout := []; trace := [] |}.

(** The request that the run makes for a query. *)
Definition search_event (serpapi_key : pyval) (q : string) : event :=
  HttpGet "https://serpapi.com/search.json" (serpapi_params q serpapi_key 10) 30.

(** What the provider call for a query yields in an environment. *)
Definition provider_result (env : Env) (q : string) : res SerpJson :=
  (search_with_serpapi q (SERPAPI_KEY env) 10 env empty_world).1.

(** The results of a query whose provider call succeeded; none for a
    query whose call failed. *)
Definition successful_results (env : Env) (q : string) : list SearchResult :=
  match provider_result env q with
  | Ret js => extract_links_from_serpapi_json js
  | Raise _ => []
  end.

(** The lines printed for a query: one line when its provider call
    failed, none otherwise. *)
Definition query_error_lines (env : Env) (q : string) : list string :=
  match provider_result env q with
  | Ret _ => []
  | Raise e => ["SerpAPI error for query: " +:+ q +:+ " => " +:+ exn_str e]
  end.

(** What a run collects from its queries: nothing without an API key. *)
Definition collected (env : Env) : list SearchResult :=
  if truthy (SERPAPI_KEY env)
  then concat (successful_results env <$> SEARCH_QUERIES)
  else [].

(** The subject of the message of a run. *)
Definition subject_line (env : Env) : string :=
  "[Daily] Entry-level AI Jobs — " +:+ isoformat (now env).

(** What sending a message yields in an environment, and the calls it
    makes. *)
Definition send_result (env : Env) (subject html : string) : res unit :=
  (send_email_html subject html env empty_world).1.

Definition send_events (env : Env) (subject html : string) : list event :=
  trace (send_email_html subject html env empty_world).2.

(** An answer of the outside that is a value or an error, that is an
    exception deriving from [Exception]. *)
Definition value_or_error {A} (r : res A) : Prop :=
  match r with
  | Ret _ => True
  | Raise e => is_Exception e = true
  end.

(** An environment in which every failure of the search provider is an
    error. *)
Record provider_errors_only (env : Env) : Prop := {
  eo_get : forall url params timeout,
    value_or_error (requests_get env url params timeout);
  eo_status : forall url params timeout r,
    requests_get env url params timeout = Ret r ->
    value_or_error (raise_for_status r);
  eo_json : forall url params timeout r,
    requests_get env url params timeout = Ret r ->
    value_or_error (json r)
}.

(** An environment in which every failure of the mail server is an
    error. *)
Record mail_errors_only (env : Env) : Prop := {
  eo_connect : forall host port, value_or_error (smtp_connect env host port);
  eo_starttls : value_or_error (smtp_starttls env);
  eo_login : forall user pass, value_or_error (smtp_login env user pass);
  eo_sendmail : forall sender recipient msg,
    value_or_error (smtp_sendmail env sender recipient msg);
  eo_quit : value_or_error (quit_result (smtp_quit env))
}.

(** What [try: ... except Exception] makes of the outcome of the send: an
    error is caught, any other exception goes on. *)
Definition after_handler (r : res unit) : res unit :=
  match r with
  | Ret _ => Ret tt
  | Raise e => if is_Exception e then Ret tt else Raise e
  end.

(** ** Reference definitions for the aggregator *)

Definition link_of (r : SearchResult) : pyval := get r "link".

(** The cap-free deduplication: the same loop body run over the whole
    input, with no test on the length of [dedup]. *)
Definition dedup_unbounded (aggregated : list SearchResult)
  : list SearchResult :=
  (fold_left (fun st item => dedup_step item st) aggregated (∅, [])).2.

(** The entries that are the first occurrence of a non-empty link: entry
    [i] is kept when its link is non-empty and is not the link of any
    entry before position [i]. *)
Definition first_occurrences (l : list SearchResult) : list SearchResult :=
  (filter (fun p : nat * SearchResult =>
             truthy (link_of p.2) ∧ link_of p.2 ∉ link_of <$> take p.1 l)
          (imap pair l)).*2.

(** What a scan that starts with [seen] keeps of [l] (no cap). *)
Fixpoint kept (seen : gset pyval) (l : list SearchResult)
  : list SearchResult :=
  match l with
  | [] => []
  | item :: rest =>
      if truthy (link_of item) && bool_decide (link_of item ∉ seen)
      then item :: kept ({[link_of item]} ∪ seen) rest
      else kept seen rest
  end.

(** A result with a title and a link, and no snippet. *)
Definition titled (title link : string) : SearchResult :=
  {[ "title" := PyStr title; "link" := PyStr link ]}.

(** Results with the links ["0"], ["1"], ..., one more than the cap. *)
Definition numbered (i : nat) : SearchResult :=
  {[ "title" := PyStr ("job " +:+ pretty i); "link" := PyStr (pretty i) ]}.

Definition many_links : list SearchResult := numbered <$> seq 0 21.

(** A result with a title only. *)
Definition no_link : SearchResult := {[ "title" := PyStr "B" ]}.

(** A result whose title and link are present and empty. *)
Definition blank : SearchResult :=
  {[ "title" := PyStr EmptyString; "link" := PyStr EmptyString ]}.

(** A sample environment: the last query times out, the others return two
    results each, and the mail server refuses the login. *)
Definition sample_response : Response :=
  {| raise_for_status := Ret tt;
     json := Ret {| organic_results := Some [titled "A" "x"; no_link] |} |}.

Definition sample_env : Env :=
  {| RECIPIENT := PyStr "to@example.org";
     SENDER := PyStr "from@example.org";
     SMTP_HOST := "smtp.gmail.com";
     SMTP_PORT := 587;
     SMTP_USER := PyStr "user";
     SMTP_PASS := PyNone;
     SERPAPI_KEY := PyStr "key";
     now := {| year := 2024; month := 3; day := 7; hour := 9; minute := 5 |};
     requests_get := fun _ params _ =>
       if String.eqb (p_q params)
            (quoted "entry level" +:+ " " +:+ quoted "AI Engineer" +:+ " "
               +:+ quoted "new grad")
       then Raise (Exn true "timed out")
       else Ret sample_response;
     smtp_connect := fun _ _ => Ret tt;
     smtp_starttls := Ret tt;
     smtp_login := fun _ _ => Raise (Exn true "authentication failed");
     smtp_sendmail := fun _ _ _ => Ret tt;
     smtp_quit := QuitAccepted |}.

(** The same environment, with the login interrupted from the keyboard:
    [KeyboardInterrupt] does not derive from [Exception]. *)
Definition interrupted_env : Env :=
  {| RECIPIENT := RECIPIENT sample_env;
     SENDER := SENDER sample_env;
     SMTP_HOST := SMTP_HOST sample_env;
     SMTP_PORT := SMTP_PORT sample_env;
     SMTP_USER := SMTP_USER sample_env;
     SMTP_PASS := SMTP_PASS sample_env;
     SERPAPI_KEY := SERPAPI_KEY sample_env;
     now := now sample_env;
     requests_get := requests_get sample_env;
     smtp_connect := smtp_connect sample_env;
     smtp_starttls := smtp_starttls sample_env;
     smtp_login := fun _ _ => Raise (Exn false "KeyboardInterrupt");
     smtp_sendmail := smtp_sendmail sample_env;
     smtp_quit := smtp_quit sample_env |}.

#[local] Set Warnings "-clear-no-such-hyp".

(** ** Further sample environments *)

(** The sample environment without an API key. *)
Definition keyless_env : Env :=
  {| RECIPIENT := RECIPIENT sample_env;
     SENDER := SENDER sample_env;
     SMTP_HOST := SMTP_HOST sample_env;
     SMTP_PORT := SMTP_PORT sample_env;
     SMTP_USER := SMTP_USER sample_env;
     SMTP_PASS := SMTP_PASS sample_env;
     SERPAPI_KEY := PyNone;
     now := now sample_env;
     requests_get := requests_get sample_env;
     smtp_connect := smtp_connect sample_env;
     smtp_starttls := smtp_starttls sample_env;
     smtp_login := smtp_login sample_env;
     smtp_sendmail := smtp_sendmail sample_env;
     smtp_quit := smtp_quit sample_env |}.

(** The sample environment with a mail server that accepts the login. *)
Definition delivering_env : Env :=
  {| RECIPIENT := RECIPIENT sample_env;
     SENDER := SENDER sample_env;
     SMTP_HOST := SMTP_HOST sample_env;
     SMTP_PORT := SMTP_PORT sample_env;
     SMTP_USER := SMTP_USER sample_env;
     SMTP_PASS := SMTP_PASS sample_env;
     SERPAPI_KEY := SERPAPI_KEY sample_env;
     now := now sample_env;
     requests_get := requests_get sample_env;
     smtp_connect := smtp_connect sample_env;
     smtp_starttls := smtp_starttls sample_env;
     smtp_login := fun _ _ => Ret tt;
     smtp_sendmail := smtp_sendmail sample_env;
     smtp_quit := smtp_quit sample_env |}.

(** The sample environment with a mail server that cannot be reached. *)
Definition unreachable_env : Env :=
  {| RECIPIENT := RECIPIENT sample_env;
     SENDER := SENDER sample_env;
     SMTP_HOST := SMTP_HOST sample_env;
     SMTP_PORT := SMTP_PORT sample_env;
     SMTP_USER := SMTP_USER sample_env;
     SMTP_PASS := SMTP_PASS sample_env;
     SERPAPI_KEY := SERPAPI_KEY sample_env;
     now := now sample_env;
     requests_get := requests_get sample_env;
     smtp_connect := fun _ _ => Raise (Exn true "connection refused");
     smtp_starttls := smtp_starttls sample_env;
     smtp_login := smtp_login sample_env;
     smtp_sendmail := smtp_sendmail sample_env;
     smtp_quit := smtp_quit sample_env |}.

(** The sample environment with the third query interrupted from the
    keyboard. *)
Definition aborting_env : Env :=
  {| RECIPIENT := RECIPIENT sample_env;
     SENDER := SENDER sample_env;
     SMTP_HOST := SMTP_HOST sample_env;
     SMTP_PORT := SMTP_PORT sample_env;
     SMTP_USER := SMTP_USER sample_env;
     SMTP_PASS := SMTP_PASS sample_env;
     SERPAPI_KEY := SERPAPI_KEY sample_env;
     now := now sample_env;
     requests_get := fun _ params _ =>
       if String.eqb (p_q params)
            ("site:angel.co " +:+ quoted "machine learning engineer" +:+ " "
               +:+ quoted "junior")
       then Raise (Exn false "KeyboardInterrupt")
       else Ret sample_response;
     smtp_connect := smtp_connect sample_env;
     smtp_starttls := smtp_starttls sample_env;
     smtp_login := smtp_login sample_env;
     smtp_sendmail := smtp_sendmail sample_env;
     smtp_quit := smtp_quit sample_env |}.

(** The delivering environment with a server that goes away before it
    answers QUIT. *)
Definition dropping_env : Env :=
  {| RECIPIENT := RECIPIENT sample_env;
     SENDER := SENDER sample_env;
     SMTP_HOST := SMTP_HOST sample_env;
     SMTP_PORT := SMTP_PORT sample_env;
     SMTP_USER := SMTP_USER sample_env;
     SMTP_PASS := SMTP_PASS sample_env;
     SERPAPI_KEY := SERPAPI_KEY sample_env;
     now := now sample_env;
     requests_get := requests_get sample_env;
     smtp_connect := smtp_connect sample_env;
     smtp_starttls := smtp_starttls sample_env;
     smtp_login := fun _ _ => Ret tt;
     smtp_sendmail := smtp_sendmail sample_env;
     smtp_quit := QuitDisconnected |}.

(** The sample environment, whose login is refused, with a server that
    goes away before it answers QUIT. *)
Definition vanishing_env : Env :=
  {| RECIPIENT := RECIPIENT sample_env;
     SENDER := SENDER sample_env;
     SMTP_HOST := SMTP_HOST sample_env;
     SMTP_PORT := SMTP_PORT sample_env;
     SMTP_USER := SMTP_USER sample_env;
     SMTP_PASS := SMTP_PASS sample_env;
     SERPAPI_KEY := SERPAPI_KEY sample_env;
     now := now sample_env;
     requests_get := requests_get sample_env;
     smtp_connect := smtp_connect sample_env;
     smtp_starttls := smtp_starttls sample_env;
     smtp_login := smtp_login sample_env;
     smtp_sendmail := smtp_sendmail sample_env;
     smtp_quit := QuitDisconnected |}.

(** A provider document with two entries; the first has a key that the
    script does not read. *)
Definition sample_json : SerpJson :=
  {| organic_results :=
       Some [ <["position" := PyStr "1"]> (titled "A" "x"); no_link ] |}.

(** The HTML that a run from the empty world formats. *)
Definition html_of_run (env : Env) : string :=
  match (format_email_html (aggregator (collected env)) env empty_world).1 with
  | Ret html => html
  | Raise _ => EmptyString
  end.

(** * Properties *)

(** ** The deduplication loop *)

Lemma keep_test_true item (seen : gset pyval) :
  truthy (link_of item) && bool_decide (link_of item ∉ seen) = true
  <-> truthy (link_of item) = true ∧ link_of item ∉ seen.
Proof. by rewrite andb_true_iff, bool_decide_eq_true. Qed.

Lemma keep_test_false item (seen : gset pyval) :
  truthy (link_of item) && bool_decide (link_of item ∉ seen) = false
  <-> truthy (link_of item) = false ∨ link_of item ∈ seen.
Proof.
  rewrite andb_false_iff, bool_decide_eq_false.
  split; (intros [H | H]; [by left | right]); [by apply dec_stable | by intros ?].
Qed.

Lemma dedup_step_kept item seen dedup :
  truthy (link_of item) = true -> link_of item ∉ seen ->
  dedup_step item (seen, dedup) = ({[link_of item]} ∪ seen, dedup ++ [item]).
Proof.
  intros Ht Hn. unfold dedup_step. fold (link_of item).
  by rewrite (proj2 (keep_test_true item seen)).
Qed.

Lemma dedup_step_skipped item seen dedup :
  truthy (link_of item) = false ∨ link_of item ∈ seen ->
  dedup_step item (seen, dedup) = (seen, dedup).
Proof.
  intros H. unfold dedup_step. fold (link_of item).
  by rewrite (proj2 (keep_test_false item seen)).
Qed.

(** The cap-free fold, from any state. *)
Lemma fold_dedup_step l seen dedup :
  fold_left (fun st item => dedup_step item st) l (seen, dedup)
  = (list_to_set (link_of <$> kept seen l) ∪ seen, dedup ++ kept seen l).
Proof.
  revert seen dedup. induction l as [|x l IH]; intros seen dedup.
  - csimpl. rewrite app_nil_r. f_equal. set_solver.
  - cbn [fold_left kept].
    destruct (truthy (link_of x) && bool_decide (link_of x ∉ seen)) eqn:E.
    + apply keep_test_true in E as [Ht Hn].
      rewrite dedup_step_kept, IH by done.
      rewrite <- app_assoc. csimpl. f_equal. set_solver.
    + apply keep_test_false in E.
      rewrite dedup_step_skipped by done. apply IH.
Qed.

(** The capped loop, from a state below the cap: it keeps what the
    cap-free scan keeps, up to the room left under the cap. *)
Lemma dedup_loop_spec max l seen dedup :
  length dedup < max ->
  dedup_loop max l seen dedup
  = (list_to_set (link_of <$> take (max - length dedup) (kept seen l)) ∪ seen,
     dedup ++ take (max - length dedup) (kept seen l)).
Proof.
  revert seen dedup. induction l as [|x l IH]; intros seen dedup Hlt.
  - csimpl. rewrite take_nil, app_nil_r. f_equal. set_solver.
  - cbn [dedup_loop kept].
    destruct (truthy (link_of x) && bool_decide (link_of x ∉ seen)) eqn:E.
    + apply keep_test_true in E as [Ht Hn].
      rewrite dedup_step_kept by done.
      case_bool_decide as Hcap; rewrite length_app in Hcap; simpl in Hcap.
      * replace (max - length dedup) with 1 by lia. csimpl.
        rewrite take_0. f_equal. set_solver.
      * rewrite IH by (rewrite length_app; simpl; lia).
        rewrite length_app. simpl.
        replace (max - length dedup) with (S (max - (length dedup + 1))) by lia.
        csimpl. rewrite <- app_assoc. csimpl. f_equal. set_solver.
    + apply keep_test_false in E.
      rewrite dedup_step_skipped by done.
      rewrite bool_decide_eq_false_2 by lia. by apply IH.
Qed.

Lemma deduplicate_spec l :
  deduplicate l
  = (list_to_set (link_of <$> take MAX_RESULTS (kept ∅ l)),
     take MAX_RESULTS (kept ∅ l)).
Proof.
  unfold deduplicate. rewrite dedup_loop_spec by (unfold MAX_RESULTS; simpl; lia).
  change (length (@nil SearchResult)) with 0. rewrite Nat.sub_0_r.
  cbn [app]. f_equal. set_solver.
Qed.

Lemma aggregator_spec l : aggregator l = take MAX_RESULTS (kept ∅ l).
Proof. unfold aggregator. by rewrite deduplicate_spec. Qed.

Lemma dedup_unbounded_spec l : dedup_unbounded l = kept ∅ l.
Proof. unfold dedup_unbounded. by rewrite fold_dedup_step. Qed.

(** *** What the scan keeps *)

Lemma kept_app seen l1 l2 :
  kept seen (l1 ++ l2)
  = kept seen l1 ++ kept (list_to_set (link_of <$> kept seen l1) ∪ seen) l2.
Proof.
  revert seen. induction l1 as [|x l1 IH]; intros seen; csimpl.
  - f_equal. set_solver.
  - destruct (truthy (link_of x) && bool_decide (link_of x ∉ seen)); csimpl.
    + rewrite IH. do 3 f_equal. set_solver.
    + apply IH.
Qed.

Lemma kept_truthy seen l r : r ∈ kept seen l -> truthy (link_of r) = true.
Proof.
  revert seen. induction l as [|x l IH]; intros seen; csimpl.
  - by intros ?%elem_of_nil.
  - destruct (truthy (link_of x) && bool_decide (link_of x ∉ seen)) eqn:E.
    + apply keep_test_true in E as [Ht _].
      intros [-> | H]%elem_of_cons; [done | by eapply IH].
    + apply IH.
Qed.

Lemma kept_fresh seen l r : r ∈ kept seen l -> link_of r ∉ seen.
Proof.
  revert seen. induction l as [|x l IH]; intros seen; csimpl.
  - by intros ?%elem_of_nil.
  - destruct (truthy (link_of x) && bool_decide (link_of x ∉ seen)) eqn:E.
    + apply keep_test_true in E as [_ Hn].
      intros [-> | H]%elem_of_cons; [done |].
      apply IH in H. set_solver.
    + apply IH.
Qed.

Lemma kept_NoDup seen l : NoDup (link_of <$> kept seen l).
Proof.
  revert seen. induction l as [|x l IH]; intros seen; csimpl.
  - constructor.
  - destruct (truthy (link_of x) && bool_decide (link_of x ∉ seen)); [| apply IH].
    csimpl. constructor; [| apply IH].
    intros (r & Hr & Hin)%list_elem_of_fmap.
    apply kept_fresh in Hin. set_solver.
Qed.

Lemma kept_sublist seen l : kept seen l `sublist_of` l.
Proof.
  revert seen. induction l as [|x l IH]; intros seen; csimpl; [done |].
  destruct (truthy (link_of x) && bool_decide (link_of x ∉ seen)).
  - by apply sublist_skip.
  - by apply sublist_cons.
Qed.

(** Only the non-empty members of [seen] matter to the scan. *)
Lemma kept_ext seen seen' l :
  (forall v, truthy v = true -> v ∈ seen <-> v ∈ seen') ->
  kept seen l = kept seen' l.
Proof.
  revert seen seen'. induction l as [|x l IH]; intros seen seen' Hs; csimpl; [done |].
  destruct (truthy (link_of x)) eqn:Ht; simpl.
  - rewrite (bool_decide_ext (link_of x ∉ seen) (link_of x ∉ seen'))
      by (by rewrite (Hs _ Ht)).
    case_bool_decide; [f_equal |]; apply IH; [| done].
    intros v Hv. specialize (Hs v Hv). set_solver.
  - by apply IH.
Qed.

(** The scan keeps the first occurrences: the entries whose link is
    non-empty and differs from the link of every earlier entry. *)
Lemma kept_first_occurrences_from pre l :
  (filter (fun p : nat * SearchResult =>
             truthy (link_of p.2)
             ∧ link_of p.2 ∉ link_of <$> take p.1 (pre ++ l))
          (imap (fun i x => (length pre + i, x)) l)).*2
  = kept (list_to_set (link_of <$> pre)) l.
Proof.
  revert pre. induction l as [|x l IH]; intros pre; [done |].
  rewrite imap_cons, filter_cons. cbn [kept].
  rewrite (imap_ext _ (fun i y => (length (pre ++ [x]) + i, y)))
    by (intros i y _; simpl; rewrite length_app; simpl; f_equal; lia).
  rewrite (cons_middle x pre l), (assoc_L (++)).
  specialize (IH (pre ++ [x])).
  case_decide as Hd; simpl in Hd.
  - rewrite Nat.add_0_r, <- (assoc_L (++)), take_app_length in Hd.
    destruct Hd as [Ht Hn]. apply Is_true_true in Ht.
    rewrite (proj2 (keep_test_true x _)) by (split; [done | set_solver]).
    csimpl. rewrite IH. do 2 f_equal. rewrite fmap_app. set_solver.
  - rewrite Nat.add_0_r, <- (assoc_L (++)), take_app_length in Hd.
    assert (Hk : truthy (link_of x) = false
                 ∨ link_of x ∈ (list_to_set (link_of <$> pre) : gset pyval)).
    { destruct (truthy (link_of x)) eqn:Ht; [right | by left].
      apply dec_stable. intros Hn. apply Hd. split; [done | set_solver]. }
    rewrite (proj2 (keep_test_false x _)) by done.
    rewrite IH. apply kept_ext. intros v Hv. rewrite fmap_app.
    destruct Hk as [Hk | Hk]; [| set_solver].
    assert (v ≠ link_of x) by congruence. set_solver.
Qed.

Lemma kept_first_occurrences l : kept ∅ l = first_occurrences l.
Proof.
  symmetry. exact (kept_first_occurrences_from [] l).
Qed.

Lemma aggregator_NoDup l : NoDup (link_of <$> aggregator l).
Proof.
  rewrite aggregator_spec, fmap_take.
  eapply sublist_NoDup; [apply kept_NoDup | apply sublist_take].
Qed.

Lemma aggregator_truthy l r : r ∈ aggregator l -> truthy (link_of r) = true.
Proof.
  rewrite aggregator_spec. intros H%subseteq_take. by eapply kept_truthy.
Qed.

Lemma seen_truthy l v : v ∈ (deduplicate l).1 -> truthy v = true.
Proof.
  rewrite deduplicate_spec. simpl. rewrite elem_of_list_to_set.
  intros (r & -> & Hr%subseteq_take)%list_elem_of_fmap. by eapply kept_truthy.
Qed.

(** An entry whose link is empty leaves the scan as it was. *)
Lemma kept_skip seen l1 r l2 :
  truthy (link_of r) = false ->
  kept seen (l1 ++ r :: l2) = kept seen (l1 ++ l2).
Proof.
  intros Hr. rewrite !kept_app. f_equal. cbn [kept]. by rewrite Hr.
Qed.

Lemma deduplicate_skip l1 r l2 :
  truthy (link_of r) = false ->
  deduplicate (l1 ++ r :: l2) = deduplicate (l1 ++ l2).
Proof. intros Hr. by rewrite !deduplicate_spec, kept_skip. Qed.

Lemma truthy_false_iff (r : SearchResult) :
  truthy (link_of r) = false
  <-> r !! "link" = None ∨ r !! "link" = Some PyNone
      ∨ r !! "link" = Some (PyStr EmptyString).
Proof.
  unfold link_of, get. destruct (r !! "link") as [[|s]|]; simpl.
  - naive_solver.
  - destruct s; simpl; naive_solver.
  - naive_solver.
Qed.

(** C1: for every list of per-query result lists, no two entries of the
    aggregator's output on their concatenation have the same non-empty
    link. *)
Theorem aggregator_links_unique (per_query : list (list SearchResult))
    (i j : nat) (a b : SearchResult) :
  aggregator (concat per_query) !! i = Some a ->
  aggregator (concat per_query) !! j = Some b ->
  i ≠ j ->
  truthy (get a "link") = true ->
  get a "link" ≠ get b "link".
Proof.
  intros Ha Hb Hij _ Heq.
  pose proof (aggregator_NoDup (concat per_query)) as Hnd.
  apply Hij. eapply (proj1 (NoDup_alt _) Hnd).
  - rewrite list_lookup_fmap, Ha. reflexivity.
  - rewrite list_lookup_fmap, Hb. simpl. unfold link_of. by rewrite Heq.
Qed.

Lemma aggregator_links_unique_witness :
  get (titled "A" "x") "link" ≠ get (titled "C" "y") "link".
Proof.
  apply (aggregator_links_unique
           [[titled "A" "x"; titled "B" "x"]; [titled "C" "y"]] 0 1).
  - reflexivity.
  - reflexivity.
  - lia.
  - reflexivity.
Defined.

(** C2: whatever the size of the input, the aggregator's output has at
    most [MAX_RESULTS] = 20 entries. *)
Theorem aggregator_length_le (per_query : list (list SearchResult)) :
  length (aggregator (concat per_query)) ≤ MAX_RESULTS ∧ MAX_RESULTS = 20.
Proof.
  split; [| reflexivity]. rewrite aggregator_spec, length_take. lia.
Qed.

(** C3, as stated, fails once the input holds more distinct links than
    the cap: of 21 entries with 21 distinct non-empty links, the last is
    the first occurrence of its link and is not kept. *)
Lemma aggregator_drops_first_occurrence :
  many_links !! 20 = Some (numbered 20)
  ∧ truthy (get (numbered 20) "link") = true
  ∧ (get (numbered 20) "link"
       ∉ (fun r => get r "link") <$> take 20 many_links)
  ∧ (numbered 20 ∉ aggregator many_links)
  ∧ aggregator many_links ≠ first_occurrences many_links.
Proof.
  split; [reflexivity |]. split; [reflexivity |].
  split; [by apply (bool_decide_unpack _); vm_compute |].
  split; [by apply (bool_decide_unpack _); vm_compute |].
  by apply (bool_decide_unpack _); vm_compute.
Qed.

(** C3, amended: the aggregator scans its input once in order and, until
    its output holds [MAX_RESULTS] entries, keeps exactly the first
    occurrence of each non-empty link: its output is the first
    [MAX_RESULTS] of the first occurrences, in input order; on the input
    [A/x, B/x, C/y] it yields [A/x, C/y]. *)
Theorem aggregator_first_occurrences (l : list SearchResult) :
  aggregator l = take MAX_RESULTS (first_occurrences l)
  ∧ aggregator l `sublist_of` l
  ∧ aggregator [titled "A" "x"; titled "B" "x"; titled "C" "y"]
    = [titled "A" "x"; titled "C" "y"].
Proof.
  split; [| split].
  - by rewrite aggregator_spec, kept_first_occurrences.
  - rewrite aggregator_spec.
    etrans; [apply sublist_take | apply kept_sublist].
  - reflexivity.
Qed.

(** C4: an entry whose link is empty or absent is never in the output,
    its link is never in the [seen] set, and the run ends in the state it
    would have reached without the entry: nothing later is suppressed and
    the entry takes no room under the cap. *)
Theorem empty_link_is_ignored (l1 l2 : list SearchResult) (r : SearchResult) :
  truthy (get r "link") = false ->
  (r ∉ aggregator (l1 ++ r :: l2))
  ∧ (get r "link" ∉ (deduplicate (l1 ++ r :: l2)).1)
  ∧ deduplicate (l1 ++ r :: l2) = deduplicate (l1 ++ l2).
Proof.
  intros Hr. split; [| split].
  - intros Hin%aggregator_truthy. unfold link_of in Hin. congruence.
  - intros Hin%seen_truthy. congruence.
  - by apply deduplicate_skip.
Qed.

Lemma empty_link_is_ignored_witness :
  (no_link ∉ aggregator ([titled "A" "x"] ++ no_link :: [titled "C" "y"]))
  ∧ (get no_link "link"
       ∉ (deduplicate ([titled "A" "x"] ++ no_link :: [titled "C" "y"])).1)
  ∧ deduplicate ([titled "A" "x"] ++ no_link :: [titled "C" "y"])
    = deduplicate ([titled "A" "x"] ++ [titled "C" "y"]).
Proof.
  apply (empty_link_is_ignored [titled "A" "x"] [titled "C" "y"] no_link).
  reflexivity.
Defined.

(** C5: the aggregator's output is the first [MAX_RESULTS] entries of the
    cap-free deduplication of the same input; once the output holds
    [MAX_RESULTS] entries nothing that follows in the input is looked at;
    and reordering an input can change the output. *)
Theorem aggregator_is_capped_prefix (l s : list SearchResult) :
  aggregator l = take MAX_RESULTS (dedup_unbounded l)
  ∧ (length (aggregator l) = MAX_RESULTS ->
     deduplicate (l ++ s) = deduplicate l)
  ∧ ∃ l1 l2 : list SearchResult,
      l1 ≡ₚ l2 ∧ ¬ (aggregator l1 ≡ₚ aggregator l2).
Proof.
  split; [| split].
  - by rewrite aggregator_spec, dedup_unbounded_spec.
  - rewrite aggregator_spec, !deduplicate_spec, kept_app. intros Hlen.
    rewrite take_app_le; [done |].
    rewrite length_take in Hlen. lia.
  - exists many_links, (reverse many_links). split.
    + symmetry. apply reverse_Permutation.
    + intros Hp.
      assert (Hin : numbered 20 ∈ aggregator (reverse many_links))
        by (by apply (bool_decide_unpack _); vm_compute).
      rewrite <- Hp in Hin. revert Hin.
      by apply (bool_decide_unpack _); vm_compute.
Qed.

Lemma aggregator_is_capped_prefix_witness :
  deduplicate (take 20 many_links ++ [numbered 20])
  = deduplicate (take 20 many_links).
Proof.
  apply (aggregator_is_capped_prefix (take 20 many_links) [numbered 20]).
  reflexivity.
Defined.

(** ** The formatter *)

Lemma string_app_assoc (a b c : string) : (a +:+ b) +:+ c = a +:+ b +:+ c.
Proof.
  induction a as [|x a IH]; [done |].
  change (String x ((a +:+ b) +:+ c) = String x (a +:+ b +:+ c)). by f_equal.
Qed.

Lemma string_app_nil_r (a : string) : a +:+ EmptyString = a.
Proof.
  induction a as [|x a IH]; [done |].
  change (String x (a +:+ EmptyString) = String x a). by f_equal.
Qed.

Lemma format_row_app html r :
  format_row html r = html +:+ format_row EmptyString r.
Proof. reflexivity. Qed.

(** The row loop appends one row per result, in order. *)
Lemma fold_format_row results html :
  fold_left format_row results html
  = html +:+ String.concat EmptyString (format_row EmptyString <$> results).
Proof.
  revert html. induction results as [|r results IH]; intros html.
  - simpl. by rewrite string_app_nil_r.
  - cbn [fold_left]. rewrite IH, (format_row_app html r). rewrite string_app_assoc.
    f_equal. rewrite fmap_cons.
    destruct (format_row EmptyString <$> results) as [|row rows].
    + simpl. by rewrite string_app_nil_r.
    + reflexivity.
Qed.

Lemma format_email_html_ext results results' env w :
  format_row EmptyString <$> results = format_row EmptyString <$> results' ->
  format_email_html results env w = format_email_html results' env w.
Proof.
  intros E. unfold format_email_html, mbind, M_bind, ask, mret, M_ret.
  do 2 f_equal.
  destruct results as [|r rs], results' as [|r' rs']; try done.
  by rewrite !fold_format_row, E.
Qed.

Lemma or_default_missing v d : truthy v = false -> or_default v d = d.
Proof. destruct v; simpl; [done | by intros ->]. Qed.

Lemma format_email_html_run results env w :
  format_email_html results env w
  = (Ret (("<h2>Daily Jobs — Entry-level AI (Collected "
             +:+ strftime (now env) +:+ ")</h2>")
          +:+ match results with
              | [] => "<p>No results found.</p>"
              | _ :: _ =>
                  "<table border='0' cellpadding='6' cellspacing='0'>"
                  +:+ "<tr><th align='left'>Title</th><th align='left'>Company / Snippet</th><th align='left'>Link</th></tr>"
                  +:+ String.concat EmptyString
                        (format_row EmptyString <$> results)
                  +:+ "</table>"
              end), w).
Proof.
  unfold format_email_html, mbind, M_bind, ask, mret, M_ret.
  do 2 f_equal. destruct results as [|r rs]; [done |].
  by rewrite fold_format_row, !string_app_assoc.
Qed.

(** C6: the formatter returns the heading followed, for an empty result
    list, by the no-results message, and otherwise by a table with one row
    per result in order; a row shows ["No title"] for a missing title and
    the empty string for a missing snippet or link, so that a missing link
    gives an anchor with an empty target. *)
Theorem format_email_html_rows (results : list SearchResult) (env : Env)
    (w : World) :
  let heading :=
    "<h2>Daily Jobs — Entry-level AI (Collected " +:+ strftime (now env)
      +:+ ")</h2>" in
  ∃ (html : string) (rows : list string),
    format_email_html results env w = (Ret html, w)
    ∧ (results = [] -> html = heading +:+ "<p>No results found.</p>")
    ∧ (results ≠ [] ->
       html = heading
                +:+ "<table border='0' cellpadding='6' cellspacing='0'>"
                +:+ "<tr><th align='left'>Title</th><th align='left'>Company / Snippet</th><th align='left'>Link</th></tr>"
                +:+ String.concat EmptyString rows +:+ "</table>")
    ∧ length rows = length results
    ∧ ∀ (i : nat) (r : SearchResult), results !! i = Some r ->
        ∃ title snippet link : string,
          rows !! i
          = Some ("<tr><td>" +:+ title +:+ "</td><td>" +:+ snippet
                    +:+ "</td><td><a href='" +:+ link
                    +:+ "'>link</a></td></tr>")
          ∧ (get r "title" = PyNone -> title = "No title")
          ∧ (get r "snippet" = PyNone -> snippet = EmptyString)
          ∧ (get r "link" = PyNone -> link = EmptyString)
          ∧ (∀ s, get r "title" = PyStr s -> s ≠ EmptyString -> title = s)
          ∧ (∀ s, get r "snippet" = PyStr s -> snippet = s)
          ∧ (∀ s, get r "link" = PyStr s -> link = s).
Proof.
  intros heading. eexists _, (format_row EmptyString <$> results).
  split; [apply format_email_html_run |].
  split; [by intros -> |]. split; [by destruct results |].
  split; [by rewrite length_fmap |].
  intros i r Hi.
  exists (or_default (get r "title") "No title"),
         (or_default (get r "snippet") EmptyString),
         (or_default (get r "link") EmptyString).
  split; [by rewrite list_lookup_fmap, Hi |].
  repeat split.
  - by intros ->.
  - by intros ->.
  - by intros ->.
  - intros s -> Hs. simpl. by rewrite (proj2 (String.eqb_neq _ _) Hs).
  - intros s ->. simpl. by destruct s.
  - intros s ->. simpl. by destruct s.
Qed.

Lemma format_email_html_rows_witness :
  ∃ (html : string) (rows : list string),
    format_email_html [titled "A" "x"; no_link] sample_env empty_world
    = (Ret html, empty_world)
    ∧ html
      = ("<h2>Daily Jobs — Entry-level AI (Collected "
           +:+ strftime (now sample_env) +:+ ")</h2>")
          +:+ "<table border='0' cellpadding='6' cellspacing='0'>"
          +:+ "<tr><th align='left'>Title</th><th align='left'>Company / Snippet</th><th align='left'>Link</th></tr>"
          +:+ String.concat EmptyString rows +:+ "</table>"
    ∧ length rows = 2
    ∧ rows !! 1
      = Some "<tr><td>B</td><td></td><td><a href=''>link</a></td></tr>".
Proof.
  destruct (format_email_html_rows [titled "A" "x"; no_link] sample_env
              empty_world) as (html & rows & Hrun & _ & Hne & Hlen & Hrow).
  exists html, rows. split; [exact Hrun |].
  split; [apply Hne; discriminate |]. split; [exact Hlen |].
  destruct (Hrow 1 no_link eq_refl)
    as (title & snippet & link & -> & _ & Hs & Hl & Ht & _).
  rewrite (Hs eq_refl), (Hl eq_refl), (Ht "B" eq_refl); [done | discriminate].
Defined.

(** C7: the formatter always returns a value, leaves the world as it
    found it, and two runs on the same results at the same clock reading
    return the same HTML, whatever else differs. *)
Theorem format_email_html_pure (results : list SearchResult)
    (env1 env2 : Env) (w1 w2 : World) :
  now env1 = now env2 ->
  ∃ html : string,
    format_email_html results env1 w1 = (Ret html, w1)
    ∧ format_email_html results env2 w2 = (Ret html, w2).
Proof.
  intros Hnow. eexists. split; [apply format_email_html_run |].
  rewrite format_email_html_run. by rewrite Hnow.
Qed.

Lemma format_email_html_pure_witness :
  ∃ html : string,
    format_email_html [titled "A" "x"] sample_env empty_world
    = (Ret html, empty_world)
    ∧ format_email_html [titled "A" "x"] sample_env
        {| stdout := ["earlier line"]; trace := [SmtpClose] |}
      = (Ret html, {| stdout := ["earlier line"]; trace := [SmtpClose] |}).
Proof.
  apply (format_email_html_pure [titled "A" "x"] sample_env sample_env).
  reflexivity.
Defined.

Lemma string_concat_cons (x : string) (l : list string) :
  String.concat EmptyString (x :: l) = x +:+ String.concat EmptyString l.
Proof. destruct l; simpl; [by rewrite string_app_nil_r | done]. Qed.

Lemma string_concat_app (l1 l2 : list string) :
  String.concat EmptyString (l1 ++ l2)
  = String.concat EmptyString l1 +:+ String.concat EmptyString l2.
Proof.
  induction l1 as [|x l1 IH]; [done |].
  rewrite <- app_comm_cons, !string_concat_cons, IH.
  by rewrite string_app_assoc.
Qed.

(** C10: the defaults go by truthiness.  A title that is present and
    empty is rendered as ["No title"]: the row of the result, at its place
    in the table, shows that text, and the HTML is that of the same result
    with the title ["No title"] or with no title at all; a link that is
    present and empty is handled by the aggregator like an absent one: the
    entry is not added and the empty link is not marked as seen. *)
Theorem defaults_apply_by_truthiness (t r : SearchResult)
    (rs1 rs2 l1 l2 : list SearchResult) (env : Env) (w : World) :
  t !! "title" = Some (PyStr EmptyString) ->
  r !! "link" = Some (PyStr EmptyString) ->
  (∃ snippet link : string,
     (get t "snippet" = PyNone -> snippet = EmptyString)
     ∧ (∀ s, get t "snippet" = PyStr s -> snippet = s)
     ∧ (get t "link" = PyNone -> link = EmptyString)
     ∧ (∀ s, get t "link" = PyStr s -> link = s)
     ∧ (∀ html : string,
          format_row html t
          = html +:+ "<tr><td>No title</td><td>" +:+ snippet
              +:+ "</td><td><a href='" +:+ link +:+ "'>link</a></td></tr>")
     ∧ format_email_html (rs1 ++ t :: rs2) env w
       = (Ret (("<h2>Daily Jobs — Entry-level AI (Collected "
                  +:+ strftime (now env) +:+ ")</h2>")
               +:+ "<table border='0' cellpadding='6' cellspacing='0'>"
               +:+ "<tr><th align='left'>Title</th><th align='left'>Company / Snippet</th><th align='left'>Link</th></tr>"
               +:+ String.concat EmptyString (format_row EmptyString <$> rs1)
               +:+ ("<tr><td>No title</td><td>" +:+ snippet
                      +:+ "</td><td><a href='" +:+ link
                      +:+ "'>link</a></td></tr>")
               +:+ String.concat EmptyString (format_row EmptyString <$> rs2)
               +:+ "</table>"), w))
  ∧ format_email_html (rs1 ++ t :: rs2) env w
    = format_email_html (rs1 ++ <["title" := PyStr "No title"]> t :: rs2) env w
  ∧ format_email_html (rs1 ++ t :: rs2) env w
    = format_email_html (rs1 ++ delete "title" t :: rs2) env w
  ∧ (r ∉ aggregator (l1 ++ r :: l2))
  ∧ (PyStr EmptyString ∉ (deduplicate (l1 ++ r :: l2)).1)
  ∧ deduplicate (l1 ++ r :: l2) = deduplicate (l1 ++ delete "link" r :: l2).
Proof.
  intros Ht Hr.
  assert (Hlink : truthy (link_of r) = false)
    by (apply truthy_false_iff; auto).
  assert (Hrow : ∀ html : string,
            format_row html t
            = html +:+ "<tr><td>No title</td><td>"
                +:+ or_default (get t "snippet") EmptyString
                +:+ "</td><td><a href='"
                +:+ or_default (get t "link") EmptyString
                +:+ "'>link</a></td></tr>").
  { intros html. unfold format_row. unfold get at 1. by rewrite Ht. }
  split; [| split; [| split; [| split; [| split]]]].
  - exists (or_default (get t "snippet") EmptyString),
           (or_default (get t "link") EmptyString).
    split; [by intros -> |]. split; [intros s ->; simpl; by destruct s |].
    split; [by intros -> |]. split; [intros s ->; simpl; by destruct s |].
    split; [exact Hrow |].
    rewrite format_email_html_run. destruct (rs1 ++ t :: rs2) eqn:E;
      [by destruct rs1 |].
    rewrite <- E, fmap_app, fmap_cons, string_concat_app, string_concat_cons.
    rewrite (Hrow EmptyString). cbn [String.append].
    by rewrite !string_app_assoc.
  - apply format_email_html_ext. rewrite !fmap_app, !fmap_cons. do 2 f_equal.
    unfold format_row, get. rewrite Ht, lookup_insert_eq.
    by rewrite !lookup_insert_ne.
  - apply format_email_html_ext. rewrite !fmap_app, !fmap_cons. do 2 f_equal.
    unfold format_row, get. rewrite Ht, lookup_delete_eq.
    by rewrite !lookup_delete_ne.
  - intros Hin%aggregator_truthy. congruence.
  - by intros Hin%seen_truthy.
  - rewrite !deduplicate_skip; [done | | done].
    apply truthy_false_iff. left. apply lookup_delete_eq.
Qed.

Lemma defaults_apply_by_truthiness_witness :
  format_email_html ([titled "A" "x"] ++ blank :: []) sample_env empty_world
  = (Ret ("<h2>Daily Jobs — Entry-level AI (Collected 2024-03-07 09:05 IST)</h2>"
            +:+ "<table border='0' cellpadding='6' cellspacing='0'>"
            +:+ "<tr><th align='left'>Title</th><th align='left'>Company / Snippet</th><th align='left'>Link</th></tr>"
            +:+ "<tr><td>A</td><td></td><td><a href='x'>link</a></td></tr>"
            +:+ "<tr><td>No title</td><td></td><td><a href=''>link</a></td></tr>"
            +:+ "</table>"), empty_world)
  ∧ format_email_html ([titled "A" "x"] ++ blank :: []) sample_env empty_world
    = format_email_html
        ([titled "A" "x"] ++ <["title" := PyStr "No title"]> blank :: [])
        sample_env empty_world
  ∧ format_email_html ([titled "A" "x"] ++ blank :: []) sample_env empty_world
    = format_email_html ([titled "A" "x"] ++ delete "title" blank :: [])
        sample_env empty_world
  ∧ (blank ∉ aggregator ([titled "A" "x"] ++ blank :: [titled "C" "y"]))
  ∧ (PyStr EmptyString
       ∉ (deduplicate ([titled "A" "x"] ++ blank :: [titled "C" "y"])).1)
  ∧ deduplicate ([titled "A" "x"] ++ blank :: [titled "C" "y"])
    = deduplicate ([titled "A" "x"] ++ delete "link" blank :: [titled "C" "y"]).
Proof.
  destruct (defaults_apply_by_truthiness blank blank [titled "A" "x"] []
              [titled "A" "x"] [titled "C" "y"] sample_env empty_world
              eq_refl eq_refl)
    as ((snippet & link & Hs & _ & _ & Hl & _ & Hrun) & Hrest).
  split; [| exact Hrest].
  rewrite Hrun, (Hs eq_refl), (Hl EmptyString eq_refl). reflexivity.
Defined.

(** ** The run *)

Ltac run_monad :=
  unfold mbind, M_bind, mret, M_ret, ask, lift, emit, print, try_except,
    with_finally; simpl.

Lemma search_with_serpapi_run q key num env w :
  search_with_serpapi q key num env w
  = ((search_with_serpapi q key num env empty_world).1,
     {| stdout := stdout w;
        trace := trace w
                 ++ [HttpGet "https://serpapi.com/search.json"
                       (serpapi_params q key num) 30] |}).
Proof.
  unfold search_with_serpapi, requests_get_call. run_monad.
  destruct (requests_get env _ _ _) as [r | e]; [| done].
  destruct (raise_for_status r) as [[] | e]; [| done].
  by destruct (json r).
Qed.

Lemma provider_result_error env q :
  provider_errors_only env -> value_or_error (provider_result env q).
Proof.
  intros Henv. unfold provider_result, search_with_serpapi, requests_get_call.
  run_monad.
  pose proof (eo_get env Henv "https://serpapi.com/search.json"
                (serpapi_params q (SERPAPI_KEY env) 10) 30) as Hget.
  destruct (requests_get env _ _ _) as [r | e] eqn:E; [| done].
  pose proof (eo_status env Henv _ _ _ _ E) as Hst.
  pose proof (eo_json env Henv _ _ _ _ E) as Hjs.
  destruct (raise_for_status r) as [[] | e]; [| done].
  by destruct (json r).
Qed.

(** The query loop requests every query in order, collects the results of
    the calls that succeed and prints a line for each call that fails. *)
Lemma query_loop_run env qs aggregated w :
  provider_errors_only env ->
  query_loop (SERPAPI_KEY env) qs aggregated env w
  = (Ret (aggregated ++ concat (successful_results env <$> qs)),
     {| stdout := stdout w ++ concat (query_error_lines env <$> qs);
        trace := trace w ++ (search_event (SERPAPI_KEY env) <$> qs) |}).
Proof.
  intros Henv. revert aggregated w.
  induction qs as [|q qs IH]; intros aggregated w.
  - simpl. run_monad. rewrite !app_nil_r. by destruct w.
  - cbn [query_loop]. unfold mbind at 1, M_bind at 1, try_except.
    unfold mbind at 1, M_bind at 1.
    rewrite search_with_serpapi_run.
    pose proof (provider_result_error env q Henv) as Herr.
    rewrite !fmap_cons. cbn [concat].
    unfold successful_results at 1, query_error_lines at 1.
    unfold provider_result in *.
    destruct ((search_with_serpapi q (SERPAPI_KEY env) 10 env empty_world).1)
      as [js | e]; simpl in Herr |- *.
    + run_monad. rewrite IH. simpl.
      by rewrite <- !(assoc_L (++)).
    + rewrite Herr. run_monad. rewrite IH. simpl.
      by rewrite <- !(assoc_L (++)).
Qed.

Lemma send_email_html_run subject html env w :
  send_email_html subject html env w
  = (send_result env subject html,
     {| stdout := stdout w;
        trace := trace w ++ send_events env subject html |}).
Proof.
  unfold send_result, send_events, send_email_html. run_monad.
  destruct (smtp_connect env _ _) as [[] | e]; simpl; [| done].
  destruct (smtp_starttls env) as [[] | e1], (smtp_quit env) as [ | | e2];
    simpl; rewrite <- ?(assoc_L (++)); try done;
  destruct (smtp_login env _ _) as [[] | e3];
    simpl; rewrite <- ?(assoc_L (++)); try done;
  destruct (smtp_sendmail env _ _ _) as [[] | e4];
    simpl; by rewrite <- ?(assoc_L (++)).
Qed.

Lemma send_result_error env subject html :
  mail_errors_only env -> value_or_error (send_result env subject html).
Proof.
  intros Henv. unfold send_result, send_email_html. run_monad.
  pose proof (eo_connect env Henv (SMTP_HOST env) (SMTP_PORT env)) as H1.
  pose proof (eo_starttls env Henv) as H2.
  pose proof (eo_login env Henv (SMTP_USER env) (SMTP_PASS env)) as H3.
  pose proof (eo_sendmail env Henv (SENDER env) (RECIPIENT env)
                {| msg_subject := subject; msg_from := SENDER env;
                   msg_to := RECIPIENT env; msg_html := html |}) as H4.
  pose proof (eo_quit env Henv) as H5.
  destruct (smtp_connect env _ _) as [[] | e]; simpl; [| done].
  destruct (smtp_starttls env) as [[] | e1], (smtp_quit env) as [ | | e2];
    simpl; try done;
  destruct (smtp_login env _ _) as [[] | e3]; simpl; try done;
  by destruct (smtp_sendmail env _ _ _) as [[] | e4].
Qed.

(** What [main] collects from the queries, prints while querying, and
    requests, with and without an API key. *)
Lemma main_queries_run env w :
  provider_errors_only env ->
  (if truthy (SERPAPI_KEY env)
   then query_loop (SERPAPI_KEY env) SEARCH_QUERIES []
   else print "No SERPAPI_KEY provided; please provide one or configure RSS sources.";;
        mret []) env w
  = (Ret (if truthy (SERPAPI_KEY env)
          then concat (successful_results env <$> SEARCH_QUERIES) else []),
     {| stdout := stdout w
                  ++ (if truthy (SERPAPI_KEY env)
                      then concat (query_error_lines env <$> SEARCH_QUERIES)
                      else ["No SERPAPI_KEY provided; please provide one or configure RSS sources."]);
        trace := trace w
                 ++ (if truthy (SERPAPI_KEY env)
                     then search_event (SERPAPI_KEY env) <$> SEARCH_QUERIES
                     else []) |}).
Proof.
  intros Henv. destruct (truthy (SERPAPI_KEY env)).
  - by rewrite query_loop_run.
  - run_monad. by rewrite app_nil_r.
Qed.

(** The whole run in an environment whose provider failures are errors:
    what the send yields decides how the run ends. *)
Lemma main_run env w html :
  provider_errors_only env ->
  (format_email_html (aggregator (collected env)) env w).1 = Ret html ->
  main env w
  = (after_handler (send_result env (subject_line env) html),
     {| stdout :=
          stdout w
          ++ (if truthy (SERPAPI_KEY env)
              then concat (query_error_lines env <$> SEARCH_QUERIES)
              else ["No SERPAPI_KEY provided; please provide one or configure RSS sources."])
          ++ match send_result env (subject_line env) html with
             | Ret _ =>
                 ["Email sent, items: "
                    +:+ pretty (length (aggregator (collected env)))]
             | Raise e =>
                 if is_Exception e
                 then ["Failed to send email: " +:+ exn_str e]
                 else []
             end;
        trace :=
          trace w
          ++ (if truthy (SERPAPI_KEY env)
              then search_event (SERPAPI_KEY env) <$> SEARCH_QUERIES
              else [])
          ++ send_events env (subject_line env) html |}).
Proof.
  intros Henv Hhtml.
  unfold main. unfold mbind at 1, M_bind at 1, ask at 1.
  unfold mbind at 1, M_bind at 1.
  rewrite (main_queries_run env w Henv). fold (collected env).
  unfold mbind at 1, M_bind at 1.
  rewrite format_email_html_run in Hhtml |- *. simpl in Hhtml.
  injection Hhtml as Hhtml. rewrite Hhtml.
  unfold try_except. unfold mbind at 1, M_bind at 1.
  fold (subject_line env). rewrite send_email_html_run. cbn [stdout trace].
  destruct (send_result env _ _) as [[] | e]; simpl.
  - unfold print. by rewrite <- !(assoc_L (++)).
  - destruct (is_Exception e); simpl.
    + unfold print. simpl. by rewrite <- !(assoc_L (++)).
    + by rewrite !app_nil_r, <- !(assoc_L (++)).
Qed.

Lemma elem_of_concat {A} (x : A) (l : list A) (ls : list (list A)) :
  x ∈ l -> l ∈ ls -> x ∈ concat ls.
Proof.
  intros Hx Hl. induction Hl as [l ls | l l' ls Hl IH]; cbn [concat].
  - apply elem_of_app. by left.
  - apply elem_of_app. right. by apply IH.
Qed.

Lemma send_events_start env subject html :
  ∃ rest : list event,
    send_events env subject html
    = SmtpConnect (SMTP_HOST env) (SMTP_PORT env) :: rest.
Proof.
  unfold send_events, send_email_html. run_monad.
  destruct (smtp_connect env _ _) as [[] | e]; simpl; [| by eexists].
  destruct (smtp_starttls env) as [[] | e1], (smtp_quit env) as [ | | e2];
    simpl; try (by eexists);
  destruct (smtp_login env _ _) as [[] | e3]; simpl; try (by eexists);
  destruct (smtp_sendmail env _ _ _) as [[] | e4]; simpl; by eexists.
Qed.

(** Each way the send can fail makes [send_email_html] fail. *)
Lemma send_result_failures env subject html e :
  (smtp_connect env (SMTP_HOST env) (SMTP_PORT env) = Raise e
   ∨ smtp_starttls env = Raise e
   ∨ smtp_login env (SMTP_USER env) (SMTP_PASS env) = Raise e
   ∨ smtp_sendmail env (SENDER env) (RECIPIENT env)
       {| msg_subject := subject; msg_from := SENDER env;
          msg_to := RECIPIENT env; msg_html := html |} = Raise e) ->
  ∃ e' : exn, send_result env subject html = Raise e'.
Proof.
  unfold send_result, send_email_html. run_monad.
  intros H.
  destruct (smtp_connect env _ _) as [[] | e0]; simpl; [| by eexists].
  destruct (smtp_starttls env) as [[] | e1], (smtp_quit env) as [ | | e2];
    simpl; try (by eexists);
  destruct (smtp_login env _ _) as [[] | e3]; simpl; try (by eexists);
  destruct (smtp_sendmail env _ _ _) as [[] | e4]; simpl; try (by eexists);
  naive_solver.
Qed.

(** C8: when the provider call for a query fails with an error, the run
    is not aborted: the error is printed for that query, every configured
    query is requested, in order, the results of the queries that succeeded
    are aggregated and formatted, and the message built from them is
    handed to the mail server; the run then ends as the send decides,
    normally when the send returns or fails with an error. *)
Theorem provider_failure_does_not_abort (env : Env) (w : World)
    (q : string) (e : exn) :
  provider_errors_only env ->
  truthy (SERPAPI_KEY env) = true ->
  q ∈ SEARCH_QUERIES ->
  provider_result env q = Raise e ->
  ∃ (w' : World) (html : string) (rest : list event),
    main env w = (after_handler (send_result env (subject_line env) html), w')
    ∧ ("SerpAPI error for query: " +:+ q +:+ " => " +:+ exn_str e) ∈ stdout w'
    ∧ successful_results env q = []
    ∧ (format_email_html
         (aggregator (concat (successful_results env <$> SEARCH_QUERIES)))
         env w).1 = Ret html
    ∧ trace w'
      = trace w ++ (search_event (SERPAPI_KEY env) <$> SEARCH_QUERIES)
          ++ send_events env (subject_line env) html
    ∧ send_events env (subject_line env) html
      = SmtpConnect (SMTP_HOST env) (SMTP_PORT env) :: rest
    ∧ (value_or_error (send_result env (subject_line env) html) ->
       after_handler (send_result env (subject_line env) html) = Ret tt).
Proof.
  intros Henv Hkey Hq Hfail.
  destruct (send_events_start env (subject_line env)
              (match format_email_html (aggregator (collected env)) env w with
               | (Ret h, _) => h
               | _ => EmptyString
               end)) as [rest Hrest].
  eexists _, _, rest.
  split; [apply (main_run env w); [done |] |].
  - rewrite format_email_html_run. reflexivity.
  - rewrite format_email_html_run in Hrest.
    unfold collected in *. rewrite Hkey in *. cbn [stdout trace].
    split; [| split; [| split; [by rewrite format_email_html_run |
                                split; [done | split; [exact Hrest |]]]]].
    + rewrite !elem_of_app. right. left.
      eapply elem_of_concat; [| by apply list_elem_of_fmap_2].
      unfold query_error_lines. rewrite Hfail. apply list_elem_of_here.
    + unfold successful_results. by rewrite Hfail.
    + destruct (send_result env _ _) as [[] | e0]; simpl; [done |].
      by intros ->.
Qed.

Lemma provider_failure_does_not_abort_witness :
  let q := quoted "entry level" +:+ " " +:+ quoted "AI Engineer" +:+ " "
             +:+ quoted "new grad" in
  ∃ (w' : World) (html : string) (rest : list event),
    main sample_env empty_world
    = (after_handler (send_result sample_env (subject_line sample_env) html),
       w')
    ∧ ("SerpAPI error for query: " +:+ q +:+ " => "
         +:+ exn_str (Exn true "timed out")) ∈ stdout w'
    ∧ successful_results sample_env q = []
    ∧ (format_email_html
         (aggregator
            (concat (successful_results sample_env <$> SEARCH_QUERIES)))
         sample_env empty_world).1 = Ret html
    ∧ trace w'
      = trace empty_world
          ++ (search_event (SERPAPI_KEY sample_env) <$> SEARCH_QUERIES)
          ++ send_events sample_env (subject_line sample_env) html
    ∧ send_events sample_env (subject_line sample_env) html
      = SmtpConnect (SMTP_HOST sample_env) (SMTP_PORT sample_env) :: rest
    ∧ (value_or_error (send_result sample_env (subject_line sample_env) html)
       -> after_handler
            (send_result sample_env (subject_line sample_env) html) = Ret tt).
Proof.
  intros q.
  apply (provider_failure_does_not_abort sample_env empty_world q
           (Exn true "timed out")).
  - constructor; simpl.
    + intros _ params _. by destruct (String.eqb _ _).
    + intros _ params _ r. destruct (String.eqb _ _); [done |].
      by intros [= <-].
    + intros _ params _ r. destruct (String.eqb _ _); [done |].
      by intros [= <-].
  - reflexivity.
  - apply (bool_decide_unpack _). vm_compute. exact I.
  - vm_compute. reflexivity.
Defined.

(** C9: in an environment whose failures are errors the run ends
    normally; when the send fails, whatever step of it failed (connection,
    TLS, login or transmission), the last line printed reports the failure
    with the error, and when it succeeds the last line reports the number
    of items sent. *)
Theorem send_outcome_is_logged (env : Env) (w : World) :
  provider_errors_only env ->
  mail_errors_only env ->
  ∃ (w' : World) (html : string),
    main env w = (Ret tt, w')
    ∧ (format_email_html (aggregator (collected env)) env w).1 = Ret html
    ∧ (∀ e : exn,
         send_result env (subject_line env) html = Raise e ->
         last (stdout w') = Some ("Failed to send email: " +:+ exn_str e))
    ∧ (send_result env (subject_line env) html = Ret tt ->
       last (stdout w')
       = Some ("Email sent, items: "
                 +:+ pretty (length (aggregator (collected env)))))
    ∧ (∀ e : exn,
         smtp_connect env (SMTP_HOST env) (SMTP_PORT env) = Raise e
         ∨ smtp_starttls env = Raise e
         ∨ smtp_login env (SMTP_USER env) (SMTP_PASS env) = Raise e
         ∨ smtp_sendmail env (SENDER env) (RECIPIENT env)
             {| msg_subject := subject_line env; msg_from := SENDER env;
                msg_to := RECIPIENT env; msg_html := html |} = Raise e ->
         ∃ e' : exn,
           send_result env (subject_line env) html = Raise e'
           ∧ last (stdout w')
             = Some ("Failed to send email: " +:+ exn_str e')).
Proof.
  intros Hprov Hmail.
  assert (Hf : ∃ html,
             (format_email_html (aggregator (collected env)) env w).1
             = Ret html)
    by (rewrite format_email_html_run; by eexists).
  destruct Hf as [html Hf].
  pose proof (main_run env w html Hprov Hf) as Hrun.
  pose proof (send_result_error env (subject_line env) html Hmail) as Herr.
  pose proof (send_result_failures env (subject_line env) html) as Hfail.
  destruct (send_result env (subject_line env) html) as [[] | e0] eqn:Hs;
    cbn [after_handler value_or_error] in Hrun, Herr.
  - eexists _, html. split; [exact Hrun |]. split; [exact Hf |].
    cbn [stdout]. rewrite (assoc_L (++)), last_snoc, Hs.
    split; [intros e; discriminate |]. split; [done |].
    intros e He. destruct (Hfail e He) as [e' He']. discriminate.
  - rewrite Herr in Hrun.
    eexists _, html. split; [exact Hrun |]. split; [exact Hf |].
    cbn [stdout]. rewrite (assoc_L (++)), last_snoc, Hs.
    split; [by intros e [= ->] |]. split; [discriminate |].
    intros e He. by exists e0.
Qed.

Lemma send_outcome_is_logged_witness :
  ∃ (w' : World) (html : string),
    main sample_env empty_world = (Ret tt, w')
    ∧ (format_email_html (aggregator (collected sample_env)) sample_env
         empty_world).1 = Ret html
    ∧ (∀ e : exn,
         send_result sample_env (subject_line sample_env) html = Raise e ->
         last (stdout w') = Some ("Failed to send email: " +:+ exn_str e))
    ∧ (send_result sample_env (subject_line sample_env) html = Ret tt ->
       last (stdout w')
       = Some ("Email sent, items: "
                 +:+ pretty (length (aggregator (collected sample_env)))))
    ∧ (∀ e : exn,
         smtp_connect sample_env (SMTP_HOST sample_env) (SMTP_PORT sample_env)
         = Raise e
         ∨ smtp_starttls sample_env = Raise e
         ∨ smtp_login sample_env (SMTP_USER sample_env) (SMTP_PASS sample_env)
           = Raise e
         ∨ smtp_sendmail sample_env (SENDER sample_env) (RECIPIENT sample_env)
             {| msg_subject := subject_line sample_env;
                msg_from := SENDER sample_env;
                msg_to := RECIPIENT sample_env; msg_html := html |} = Raise e ->
         ∃ e' : exn,
           send_result sample_env (subject_line sample_env) html = Raise e'
           ∧ last (stdout w')
             = Some ("Failed to send email: " +:+ exn_str e')).
Proof.
  apply (send_outcome_is_logged sample_env empty_world).
  - constructor; simpl.
    + intros _ params _. by destruct (String.eqb _ _).
    + intros _ params _ r. destruct (String.eqb _ _); [done |].
      by intros [= <-].
    + intros _ params _ r. destruct (String.eqb _ _); [done |].
      by intros [= <-].
  - by constructor.
Defined.

(** ** Concrete runs *)

(** The sample run: one query fails, the login is refused, and the run
    ends normally with both failures printed. *)
Example sample_run :
  (main sample_env empty_world).1 = Ret tt
  ∧ stdout (main sample_env empty_world).2
    = [ "SerpAPI error for query: "
          +:+ (quoted "entry level" +:+ " " +:+ quoted "AI Engineer" +:+ " "
                 +:+ quoted "new grad")
          +:+ " => timed out";
        "Failed to send email: authentication failed" ]
  ∧ collected sample_env
    = [extract_entry (titled "A" "x"); extract_entry no_link;
       extract_entry (titled "A" "x"); extract_entry no_link;
       extract_entry (titled "A" "x"); extract_entry no_link]
  ∧ aggregator (collected sample_env) = [extract_entry (titled "A" "x")].
Proof. repeat split; vm_compute; reflexivity. Qed.

(** An exception that does not derive from [Exception] is not caught: it
    leaves [main], after the session has been closed. *)
Example interrupt_is_not_caught :
  (main interrupted_env empty_world).1 = Raise (Exn false "KeyboardInterrupt")
  ∧ last (trace (main interrupted_env empty_world).2) = Some SmtpClose.
Proof. vm_compute. by split. Qed.

(** The timestamp of the heading. *)
Example strftime_sample : strftime (now sample_env) = "2024-03-07 09:05 IST".
Proof. reflexivity. Qed.

(** * Further properties *)

(** ** Extraction *)

Lemma fold_extract_entry (l acc : list SearchResult) :
  fold_left (fun results e => results ++ [extract_entry e]) l acc
  = acc ++ (extract_entry <$> l).
Proof.
  revert acc. induction l as [|e l IH]; intros acc; csimpl.
  - by rewrite app_nil_r.
  - by rewrite IH, <- (assoc_L (++)).
Qed.

Lemma extract_links_fmap js :
  extract_links_from_serpapi_json js
  = extract_entry <$> default [] (organic_results js).
Proof. unfold extract_links_from_serpapi_json. by rewrite fold_extract_entry. Qed.

Lemma get_extract_entry e k :
  get (extract_entry e) k
  = if bool_decide (k ∈ ["title"; "link"; "snippet"]) then get e k else PyNone.
Proof.
  unfold extract_entry, get at 1.
  destruct (decide (k = "title")) as [-> | Ht];
    [by rewrite lookup_insert_eq |].
  rewrite lookup_insert_ne by done.
  destruct (decide (k = "link")) as [-> | Hl];
    [by rewrite lookup_insert_eq |].
  rewrite lookup_insert_ne by done.
  destruct (decide (k = "snippet")) as [-> | Hs];
    [by rewrite lookup_insert_eq |].
  rewrite lookup_insert_ne, lookup_empty by done.
  rewrite bool_decide_eq_false_2; [done |].
  rewrite !elem_of_cons, elem_of_nil. naive_solver.
Qed.

Lemma link_of_extract_entry e : link_of (extract_entry e) = link_of e.
Proof. unfold link_of. by rewrite get_extract_entry. Qed.

(** X1: extraction yields one result per entry of [organic_results], in
    order; each result has exactly the keys title, link and snippet, and
    holds under each what [get] reads from the entry, [None] for a key the
    entry lacks. *)
Theorem extract_links_shape (js : SerpJson) (i : nat) (e : SearchResult) :
  default [] (organic_results js) !! i = Some e ->
  length (extract_links_from_serpapi_json js)
  = length (default [] (organic_results js))
  ∧ ∃ r : SearchResult,
      extract_links_from_serpapi_json js !! i = Some r
      ∧ dom r = {[ "title"; "link"; "snippet" ]}
      ∧ r !! "title" = Some (get e "title")
      ∧ r !! "link" = Some (get e "link")
      ∧ r !! "snippet" = Some (get e "snippet").
Proof.
  intros Hi. rewrite extract_links_fmap. split; [by rewrite length_fmap |].
  exists (extract_entry e). rewrite list_lookup_fmap, Hi.
  split; [done |]. unfold extract_entry. cbv zeta.
  split; [rewrite !dom_insert_L, dom_empty_L; set_solver |].
  split; [by rewrite lookup_insert_eq |].
  split; [by rewrite lookup_insert_ne, lookup_insert_eq |].
  rewrite lookup_insert_ne, lookup_insert_ne by done.
  by rewrite lookup_insert_eq.
Qed.

Lemma extract_links_shape_witness :
  length (extract_links_from_serpapi_json sample_json)
  = length (default [] (organic_results sample_json))
  ∧ ∃ r : SearchResult,
      extract_links_from_serpapi_json sample_json !! 1 = Some r
      ∧ dom r = {[ "title"; "link"; "snippet" ]}
      ∧ r !! "title" = Some (get no_link "title")
      ∧ r !! "link" = Some (get no_link "link")
      ∧ r !! "snippet" = Some (get no_link "snippet").
Proof. apply (extract_links_shape sample_json 1 no_link). reflexivity. Defined.

(** X2: a document without [organic_results] and a document with an empty
    array both extract to the empty list, and only they do. *)
Theorem extract_links_empty (js : SerpJson) :
  extract_links_from_serpapi_json js = []
  <-> organic_results js = None ∨ organic_results js = Some [].
Proof.
  rewrite extract_links_fmap.
  destruct (organic_results js) as [[|e l]|]; csimpl; naive_solver.
Qed.

(** ** Extraction, aggregation and formatting together *)

Lemma kept_fmap (f : SearchResult -> SearchResult) seen l :
  (forall r, link_of (f r) = link_of r) ->
  kept seen (f <$> l) = f <$> kept seen l.
Proof.
  intros Hf. revert seen. induction l as [|x l IH]; intros seen; csimpl;
    [done |].
  rewrite Hf.
  destruct (truthy (link_of x) && bool_decide (link_of x ∉ seen)); csimpl;
    by rewrite IH.
Qed.

(** X3: deduplicating the extracted results gives the extraction of the
    deduplicated entries: extraction keeps the link, so the aggregator
    keeps the same positions either way. *)
Theorem aggregator_extract_commute (js : SerpJson) :
  aggregator (extract_links_from_serpapi_json js)
  = extract_links_from_serpapi_json
      {| organic_results :=
           Some (aggregator (default [] (organic_results js))) |}.
Proof.
  rewrite !extract_links_fmap. simpl.
  rewrite !aggregator_spec, (kept_fmap extract_entry)
    by apply link_of_extract_entry.
  by rewrite fmap_take.
Qed.

Lemma format_row_extract_entry html e :
  format_row html (extract_entry e) = format_row html e.
Proof. unfold format_row. by rewrite !get_extract_entry. Qed.

(** X4: the formatter reads the title, the snippet and the link only:
    formatting the extracted results gives the HTML of the raw entries. *)
Theorem format_email_html_extract (js : SerpJson) (env : Env) (w : World) :
  format_email_html (extract_links_from_serpapi_json js) env w
  = format_email_html (default [] (organic_results js)) env w.
Proof.
  apply format_email_html_ext. rewrite extract_links_fmap, <- list_fmap_compose.
  apply list_fmap_ext. intros i e _. apply format_row_extract_entry.
Qed.

(** ** More on the aggregator *)

Lemma kept_id seen l :
  NoDup (link_of <$> l) ->
  (forall r, r ∈ l -> truthy (link_of r) = true ∧ link_of r ∉ seen) ->
  kept seen l = l.
Proof.
  revert seen. induction l as [|x l IH]; intros seen Hnd Hl; csimpl; [done |].
  apply NoDup_cons in Hnd as [Hx Hnd].
  destruct (Hl x (list_elem_of_here _ _)) as [Ht Hn].
  rewrite (proj2 (keep_test_true x seen)) by done.
  f_equal. apply IH; [done |].
  intros r Hr. destruct (Hl r (list_elem_of_further _ _ _ Hr)) as [Htr Hnr].
  split; [done |].
  intros [Heq%elem_of_singleton | Hin]%elem_of_union; [| done].
  apply Hx. rewrite <- Heq. by apply list_elem_of_fmap_2.
Qed.

(** X5: the aggregator is idempotent: its output is already deduplicated
    and within the cap. *)
Theorem aggregator_idempotent (l : list SearchResult) :
  aggregator (aggregator l) = aggregator l.
Proof.
  rewrite (aggregator_spec (aggregator l)), kept_id.
  - apply take_ge. rewrite aggregator_spec, length_take. lia.
  - apply aggregator_NoDup.
  - intros r Hr. split; [by eapply aggregator_truthy | set_solver].
Qed.

Lemma kept_nil seen l :
  kept seen l = []
  <-> forall r, r ∈ l -> truthy (link_of r) = false ∨ link_of r ∈ seen.
Proof.
  revert seen. induction l as [|x l IH]; intros seen; csimpl.
  - split; [by intros _ r ?%elem_of_nil | done].
  - destruct (truthy (link_of x) && bool_decide (link_of x ∉ seen)) eqn:E.
    + split; [done |]. intros H.
      apply keep_test_true in E as [Ht Hn].
      destruct (H x (list_elem_of_here _ _)); congruence.
    + apply keep_test_false in E. rewrite IH. split.
      * intros H r [-> | Hr]%elem_of_cons; [done | by apply H].
      * intros H r Hr. apply H. by apply list_elem_of_further.
Qed.

Lemma string_app_inj_l (a b c : string) : a +:+ b = a +:+ c -> b = c.
Proof.
  induction a as [|x a IH]; [done |].
  change (String x (a +:+ b) = String x (a +:+ c) -> b = c).
  intros [= H]. by apply IH.
Qed.

(** X6: the aggregator returns nothing exactly when no entry of the input
    has a non-empty link, and exactly then the formatter renders the
    no-results message for its output. *)
Theorem aggregator_empty_iff (l : list SearchResult) (env : Env) (w : World) :
  (aggregator l = []
   <-> forall r, r ∈ l -> truthy (get r "link") = false)
  ∧ (format_email_html (aggregator l) env w
     = (Ret (("<h2>Daily Jobs — Entry-level AI (Collected "
                +:+ strftime (now env) +:+ ")</h2>")
             +:+ "<p>No results found.</p>"), w)
     <-> forall r, r ∈ l -> truthy (get r "link") = false).
Proof.
  assert (Hnil : aggregator l = []
                 <-> forall r, r ∈ l -> truthy (get r "link") = false).
  { rewrite aggregator_spec. split.
    - intros H r Hr.
      destruct (kept ∅ l) as [|x k] eqn:Hk; [| discriminate H].
      destruct (proj1 (kept_nil ∅ l) Hk r Hr) as [? | ?]; [done | set_solver].
    - intros H. rewrite (proj2 (kept_nil ∅ l)); [done |].
      intros r Hr. left. by apply H. }
  split; [exact Hnil |].
  rewrite <- Hnil, format_email_html_run. split.
  - intros [= H]. apply string_app_inj_l in H.
    destruct (aggregator l); [done | discriminate H].
  - by intros ->.
Qed.

Lemma kept_complete seen l r :
  r ∈ l -> truthy (link_of r) = true ->
  link_of r ∈ seen ∨ link_of r ∈ link_of <$> kept seen l.
Proof.
  revert seen. induction l as [|x l IH]; intros seen; [by intros ?%elem_of_nil |].
  intros [-> | Hr]%elem_of_cons Ht; csimpl.
  - rewrite Ht. simpl. case_bool_decide as Hn.
    + right. csimpl. apply list_elem_of_here.
    + by left.
  - destruct (truthy (link_of x) && bool_decide (link_of x ∉ seen)); csimpl.
    + destruct (IH ({[link_of x]} ∪ seen) Hr Ht)
        as [[Heq%elem_of_singleton | Hin]%elem_of_union | Hin].
      * right. rewrite Heq. apply list_elem_of_here.
      * by left.
      * right. by apply list_elem_of_further.
    + by apply IH.
Qed.

(** X7: when the output stays below the cap, no link is lost: every
    non-empty link of the input is the link of an output entry. *)
Theorem aggregator_complete_below_cap (l : list SearchResult)
    (r : SearchResult) :
  length (aggregator l) < MAX_RESULTS ->
  r ∈ l ->
  truthy (get r "link") = true ->
  ∃ r' : SearchResult, r' ∈ aggregator l ∧ get r' "link" = get r "link".
Proof.
  rewrite aggregator_spec. intros Hlen Hr Ht.
  rewrite length_take in Hlen. rewrite take_ge by lia.
  destruct (kept_complete ∅ l r Hr Ht) as [? | Hin]; [set_solver |].
  apply list_elem_of_fmap in Hin as (r' & Heq & Hin). by exists r'.
Qed.

Lemma aggregator_complete_below_cap_witness :
  ∃ r' : SearchResult,
    r' ∈ aggregator [titled "A" "x"; titled "B" "x"; titled "C" "y"]
    ∧ get r' "link" = get (titled "B" "x") "link".
Proof.
  apply (aggregator_complete_below_cap
           [titled "A" "x"; titled "B" "x"; titled "C" "y"] (titled "B" "x")).
  - vm_compute. lia.
  - apply list_elem_of_further, list_elem_of_here.
  - reflexivity.
Defined.

(** X8: more input never withdraws a result: the output for an input is a
    prefix of the output for any extension of it. *)
Theorem aggregator_prefix_mono (l s : list SearchResult) :
  aggregator l `prefix_of` aggregator (l ++ s).
Proof.
  rewrite !aggregator_spec, kept_app, take_app.
  by apply prefix_app_r.
Qed.

(** X9: when the loop ends, [seen] holds exactly the links of the entries
    in [dedup]. *)
Theorem seen_is_links_of_dedup (l : list SearchResult) :
  (deduplicate l).1
  = list_to_set ((fun r => get r "link") <$> (deduplicate l).2).
Proof. by rewrite deduplicate_spec. Qed.

(** X10: for any cap of at least one the loop returns the first [cap]
    first occurrences; in particular a cap of one returns the first entry
    with a non-empty link alone. *)
Theorem dedup_loop_any_cap (max_results : nat) (l : list SearchResult) :
  1 ≤ max_results ->
  (dedup_loop max_results l ∅ []).2 = take max_results (first_occurrences l)
  ∧ length (dedup_loop max_results l ∅ []).2 ≤ max_results.
Proof.
  intros Hmax. rewrite dedup_loop_spec by (simpl; lia).
  cbn [snd app length]. rewrite Nat.sub_0_r, kept_first_occurrences.
  split; [done |]. rewrite length_take. lia.
Qed.

Lemma dedup_loop_any_cap_witness :
  (dedup_loop 1 [no_link; titled "A" "x"; titled "C" "y"] ∅ []).2
  = take 1 (first_occurrences [no_link; titled "A" "x"; titled "C" "y"])
  ∧ length (dedup_loop 1 [no_link; titled "A" "x"; titled "C" "y"] ∅ []).2
    ≤ 1.
Proof.
  apply (dedup_loop_any_cap 1 [no_link; titled "A" "x"; titled "C" "y"]). lia.
Defined.

(** X11: the cap is tested after the item has been handled, so with a cap
    of zero the loop still looks at the first item, keeps it when its link
    is non-empty, and stops: the output can exceed a cap of zero by one. *)
Theorem dedup_loop_zero_cap (item : SearchResult) (rest : list SearchResult) :
  (dedup_loop 0 (item :: rest) ∅ []).2
  = (if truthy (get item "link") then [item] else [])
  ∧ (dedup_loop 0 [] ∅ []).2 = [].
Proof.
  split; [| done]. cbn [dedup_loop]. unfold dedup_step. fold (link_of item).
  destruct (truthy (link_of item)) eqn:Ht; simpl.
  - by rewrite bool_decide_eq_true_2 by set_solver.
  - done.
Qed.

(** X21: the aggregator decides by the link alone: changing the other
    fields of the entries changes neither which positions are kept nor
    their order. *)
Theorem aggregator_by_link_alone (f : SearchResult -> SearchResult)
    (l : list SearchResult) :
  (forall r, get (f r) "link" = get r "link") ->
  aggregator (f <$> l) = f <$> aggregator l.
Proof.
  intros Hf. rewrite !aggregator_spec, (kept_fmap f) by exact Hf.
  by rewrite fmap_take.
Qed.

Lemma aggregator_by_link_alone_witness :
  aggregator (<["title" := PyStr "T"]> <$> [titled "A" "x"; titled "B" "x"])
  = <["title" := PyStr "T"]> <$> aggregator [titled "A" "x"; titled "B" "x"].
Proof.
  apply (aggregator_by_link_alone (<["title" := PyStr "T"]>)
           [titled "A" "x"; titled "B" "x"]).
  intros r. unfold get. by rewrite lookup_insert_ne.
Defined.

(** ** The provider call *)

(** X12: a provider call makes exactly one request, with the query, the
    count, the key and a timeout of 30, and prints nothing; it returns the
    decoded document exactly when the request, the status check and the
    decoding all succeed, and an error status is raised before the body is
    looked at. *)
Theorem search_with_serpapi_one_request (q : string) (key : pyval)
    (num : nat) (env : Env) (w : World) :
  let url := "https://serpapi.com/search.json" in
  let params := serpapi_params q key num in
  ∃ r : res SerpJson,
    search_with_serpapi q key num env w
    = (r, {| stdout := stdout w;
             trace := trace w ++ [HttpGet url params 30] |})
    ∧ (∀ js : SerpJson,
         r = Ret js
         <-> ∃ resp : Response,
               requests_get env url params 30 = Ret resp
               ∧ raise_for_status resp = Ret tt
               ∧ json resp = Ret js)
    ∧ (∀ e : exn, requests_get env url params 30 = Raise e -> r = Raise e)
    ∧ (∀ (resp : Response) (e : exn),
         requests_get env url params 30 = Ret resp ->
         raise_for_status resp = Raise e -> r = Raise e).
Proof.
  intros url params. eexists. split; [apply search_with_serpapi_run |].
  unfold search_with_serpapi, requests_get_call. run_monad.
  fold url. fold params.
  destruct (requests_get env url params 30) as [resp | e0] eqn:Hget; simpl.
  - destruct (raise_for_status resp) as [[] | e1] eqn:Hst; simpl.
    + split; [| split].
      * intros js. split; [intros Hjs; by exists resp |].
        by intros (resp' & [= <-] & _ & Hjs).
      * intros e. discriminate.
      * intros resp' e [= <-]. rewrite Hst. discriminate.
    + split; [| split].
      * intros js. split; [discriminate |].
        intros (resp' & [= <-] & Hst' & _). rewrite Hst in Hst'. discriminate.
      * intros e. discriminate.
      * intros resp' e [= <-] He. congruence.
  - split; [| split].
    + intros js. split; [discriminate |]. intros (resp' & Hr & _). discriminate.
    + by intros e [= ->].
    + intros resp e. discriminate.
Qed.

(** ** The SMTP session *)

(** X13: when the connection cannot be opened, the send fails with the
    error of the connection and nothing further is done: no TLS, no login,
    no transmission, and no session to close. *)
Theorem send_email_html_connect_failure (subject html : string) (env : Env)
    (w : World) (e : exn) :
  smtp_connect env (SMTP_HOST env) (SMTP_PORT env) = Raise e ->
  send_email_html subject html env w
  = (Raise e,
     {| stdout := stdout w;
        trace := trace w ++ [SmtpConnect (SMTP_HOST env) (SMTP_PORT env)] |}).
Proof. intros H. unfold send_email_html. run_monad. by rewrite H. Qed.

Lemma send_email_html_connect_failure_witness :
  send_email_html "subject" "body" unreachable_env empty_world
  = (Raise (Exn true "connection refused"),
     {| stdout := stdout empty_world;
        trace := trace empty_world
                 ++ [SmtpConnect (SMTP_HOST unreachable_env)
                       (SMTP_PORT unreachable_env)] |}).
Proof.
  apply (send_email_html_connect_failure "subject" "body" unreachable_env
           empty_world (Exn true "connection refused")).
  reflexivity.
Defined.

(** X14: once the connection is open the session is always closed: on
    every path, whichever step fails, the calls made start with the
    connection and STARTTLS and end with QUIT and the close; and nothing
    is printed. *)
Theorem send_email_html_closes_session (subject html : string) (env : Env)
    (w : World) :
  smtp_connect env (SMTP_HOST env) (SMTP_PORT env) = Ret tt ->
  ∃ middle : list event,
    trace (send_email_html subject html env w).2
    = trace w
        ++ [SmtpConnect (SMTP_HOST env) (SMTP_PORT env); SmtpStartTls]
        ++ middle ++ [SmtpQuit; SmtpClose]
    ∧ stdout (send_email_html subject html env w).2 = stdout w
    ∧ (SmtpQuit ∉ middle) ∧ (SmtpClose ∉ middle).
Proof.
  intros Hc. rewrite send_email_html_run. cbn [snd stdout trace].
  exists (match smtp_starttls env with
          | Raise _ => []
          | Ret _ =>
              SmtpLogin (SMTP_USER env) (SMTP_PASS env)
              :: match smtp_login env (SMTP_USER env) (SMTP_PASS env) with
                 | Raise _ => []
                 | Ret _ =>
                     [SmtpSendmail (SENDER env) (RECIPIENT env)
                        {| msg_subject := subject; msg_from := SENDER env;
                           msg_to := RECIPIENT env; msg_html := html |}]
                 end
          end).
  unfold send_events, send_email_html. run_monad. rewrite Hc. simpl.
  destruct (smtp_starttls env) as [[] | e1], (smtp_quit env) as [ | | e2];
    simpl;
    try destruct (smtp_login env _ _) as [[] | e3]; simpl;
    try destruct (smtp_sendmail env _ _ _) as [[] | e4]; simpl;
    (split; [done |]); (split; [done |]);
    split; intros H;
    repeat (apply elem_of_cons in H as [H | H]; [discriminate H |]);
    by apply elem_of_nil in H.
Qed.

Lemma send_email_html_closes_session_witness :
  ∃ middle : list event,
    trace (send_email_html "subject" "body" sample_env empty_world).2
    = trace empty_world
        ++ [SmtpConnect (SMTP_HOST sample_env) (SMTP_PORT sample_env);
            SmtpStartTls]
        ++ middle ++ [SmtpQuit; SmtpClose]
    ∧ stdout (send_email_html "subject" "body" sample_env empty_world).2
      = stdout empty_world
    ∧ (SmtpQuit ∉ middle) ∧ (SmtpClose ∉ middle).
Proof.
  apply (send_email_html_closes_session "subject" "body" sample_env
           empty_world).
  reflexivity.
Defined.

(** X15: a message is handed over only on an open connection after
    STARTTLS and the login have succeeded, and it is the message built
    from the arguments: the given subject and body, with the configured
    sender and recipient both as headers and as envelope. *)
Theorem sendmail_only_when_authenticated (subject html : string) (env : Env)
    (sender recipient : pyval) (msg : EmailMessage) :
  SmtpSendmail sender recipient msg ∈ send_events env subject html ->
  smtp_connect env (SMTP_HOST env) (SMTP_PORT env) = Ret tt
  ∧ smtp_starttls env = Ret tt
  ∧ smtp_login env (SMTP_USER env) (SMTP_PASS env) = Ret tt
  ∧ sender = SENDER env
  ∧ recipient = RECIPIENT env
  ∧ msg = {| msg_subject := subject; msg_from := SENDER env;
             msg_to := RECIPIENT env; msg_html := html |}.
Proof.
  unfold send_events, send_email_html. run_monad.
  destruct (smtp_connect env _ _) as [[] | e0]; simpl; [| set_solver].
  destruct (smtp_starttls env) as [[] | e1], (smtp_quit env) as [ | | e2];
    simpl; try set_solver;
  destruct (smtp_login env _ _) as [[] | e3]; simpl; try set_solver;
  destruct (smtp_sendmail env _ _ _) as [[] | e4]; simpl;
    rewrite !elem_of_cons, elem_of_nil; naive_solver.
Qed.

Lemma sendmail_only_when_authenticated_witness :
  smtp_connect delivering_env (SMTP_HOST delivering_env)
    (SMTP_PORT delivering_env) = Ret tt
  ∧ smtp_starttls delivering_env = Ret tt
  ∧ smtp_login delivering_env (SMTP_USER delivering_env)
      (SMTP_PASS delivering_env) = Ret tt
  ∧ SENDER delivering_env = SENDER delivering_env
  ∧ RECIPIENT delivering_env = RECIPIENT delivering_env
  ∧ {| msg_subject := "subject"; msg_from := SENDER delivering_env;
       msg_to := RECIPIENT delivering_env; msg_html := "body" |}
    = {| msg_subject := "subject"; msg_from := SENDER delivering_env;
         msg_to := RECIPIENT delivering_env; msg_html := "body" |}.
Proof.
  apply (sendmail_only_when_authenticated "subject" "body" delivering_env).
  vm_compute. do 3 apply list_elem_of_further. apply list_elem_of_here.
Defined.

(** The send succeeds exactly when each step of the block does and QUIT
    raises nothing that leaving the session lets through. *)
Lemma send_success_spec (subject html : string) (env : Env) :
  let msg := {| msg_subject := subject; msg_from := SENDER env;
                msg_to := RECIPIENT env; msg_html := html |} in
  (send_result env subject html = Ret tt
   <-> smtp_connect env (SMTP_HOST env) (SMTP_PORT env) = Ret tt
       ∧ smtp_starttls env = Ret tt
       ∧ smtp_login env (SMTP_USER env) (SMTP_PASS env) = Ret tt
       ∧ smtp_sendmail env (SENDER env) (RECIPIENT env) msg = Ret tt
       ∧ (smtp_quit env = QuitAccepted ∨ smtp_quit env = QuitDisconnected))
  ∧ (send_result env subject html = Ret tt ->
     send_events env subject html
     = [SmtpConnect (SMTP_HOST env) (SMTP_PORT env); SmtpStartTls;
        SmtpLogin (SMTP_USER env) (SMTP_PASS env);
        SmtpSendmail (SENDER env) (RECIPIENT env) msg; SmtpQuit; SmtpClose]).
Proof.
  intros msg. unfold send_result, send_events, send_email_html. run_monad.
  fold msg.
  destruct (smtp_connect env _ _) as [[] | e0]; simpl; [| naive_solver].
  destruct (smtp_starttls env) as [[] | e1], (smtp_quit env) as [ | | e2];
    simpl; try naive_solver;
  destruct (smtp_login env _ _) as [[] | e3]; simpl; try naive_solver;
  destruct (smtp_sendmail env _ _ _) as [[] | e4]; simpl; naive_solver.
Qed.

(** X16: the send succeeds exactly when the connection, STARTTLS, the
    login and the transmission all succeed and QUIT is either accepted or
    finds the server gone, which leaving the session passes over; the
    calls made are then these five in order, followed by the close. *)
Theorem send_email_html_success_iff (subject html : string) (env : Env) :
  let msg := {| msg_subject := subject; msg_from := SENDER env;
                msg_to := RECIPIENT env; msg_html := html |} in
  (send_result env subject html = Ret tt
   <-> smtp_connect env (SMTP_HOST env) (SMTP_PORT env) = Ret tt
       ∧ smtp_starttls env = Ret tt
       ∧ smtp_login env (SMTP_USER env) (SMTP_PASS env) = Ret tt
       ∧ smtp_sendmail env (SENDER env) (RECIPIENT env) msg = Ret tt
       ∧ (smtp_quit env = QuitAccepted ∨ smtp_quit env = QuitDisconnected))
  ∧ (send_result env subject html = Ret tt ->
     send_events env subject html
     = [SmtpConnect (SMTP_HOST env) (SMTP_PORT env); SmtpStartTls;
        SmtpLogin (SMTP_USER env) (SMTP_PASS env);
        SmtpSendmail (SENDER env) (RECIPIENT env) msg; SmtpQuit; SmtpClose]).
Proof. apply send_success_spec. Qed.

Lemma send_email_html_success_iff_witness :
  send_events dropping_env "subject" "body"
  = [SmtpConnect (SMTP_HOST dropping_env) (SMTP_PORT dropping_env);
     SmtpStartTls;
     SmtpLogin (SMTP_USER dropping_env) (SMTP_PASS dropping_env);
     SmtpSendmail (SENDER dropping_env) (RECIPIENT dropping_env)
       {| msg_subject := "subject"; msg_from := SENDER dropping_env;
          msg_to := RECIPIENT dropping_env; msg_html := "body" |};
     SmtpQuit; SmtpClose].
Proof.
  apply (send_email_html_success_iff "subject" "body" dropping_env).
  reflexivity.
Defined.

(** X22: which error leaves the session.  When a step of the block fails
    and QUIT is accepted or finds the server gone, the send fails with the
    error of that step; when QUIT itself raises, the send fails with the
    exception of QUIT, whatever the block did. *)
Theorem send_email_html_error_precedence (subject html : string) (env : Env)
    (e : exn) :
  smtp_connect env (SMTP_HOST env) (SMTP_PORT env) = Ret tt ->
  (smtp_quit env = QuitRaises e -> send_result env subject html = Raise e)
  ∧ (smtp_quit env = QuitAccepted ∨ smtp_quit env = QuitDisconnected ->
     (smtp_starttls env = Raise e -> send_result env subject html = Raise e)
     ∧ (smtp_starttls env = Ret tt ->
        smtp_login env (SMTP_USER env) (SMTP_PASS env) = Raise e ->
        send_result env subject html = Raise e)
     ∧ (smtp_starttls env = Ret tt ->
        smtp_login env (SMTP_USER env) (SMTP_PASS env) = Ret tt ->
        smtp_sendmail env (SENDER env) (RECIPIENT env)
          {| msg_subject := subject; msg_from := SENDER env;
             msg_to := RECIPIENT env; msg_html := html |} = Raise e ->
        send_result env subject html = Raise e)).
Proof.
  intros Hc. unfold send_result, send_email_html. run_monad. rewrite Hc. simpl.
  destruct (smtp_starttls env) as [[] | e1], (smtp_quit env) as [ | | e2];
    simpl;
    try destruct (smtp_login env _ _) as [[] | e3]; simpl;
    try destruct (smtp_sendmail env _ _ _) as [[] | e4]; simpl;
    naive_solver.
Qed.

Lemma send_email_html_error_precedence_witness :
  send_result vanishing_env "subject" "body"
  = Raise (Exn true "authentication failed").
Proof.
  destruct (send_email_html_error_precedence "subject" "body" vanishing_env
              (Exn true "authentication failed") eq_refl) as [_ Hblock].
  destruct (Hblock (or_intror eq_refl)) as (_ & Hlogin & _).
  apply Hlogin; reflexivity.
Defined.

(** ** More on the run *)

(** X17: without an API key (absent or empty) no request is made, the
    advisory line is printed, and the message with the no-results text is
    still handed to the mail server; the run then ends as the send
    decides. *)
Theorem main_without_key (env : Env) (w : World) :
  truthy (SERPAPI_KEY env) = false ->
  let html :=
    ("<h2>Daily Jobs — Entry-level AI (Collected " +:+ strftime (now env)
       +:+ ")</h2>") +:+ "<p>No results found.</p>" in
  ∃ final : list string,
    main env w
    = (after_handler (send_result env (subject_line env) html),
       {| stdout :=
            stdout w
            ++ ["No SERPAPI_KEY provided; please provide one or configure RSS sources."]
            ++ final;
          trace := trace w ++ send_events env (subject_line env) html |})
    ∧ final
      = match send_result env (subject_line env) html with
        | Ret _ => ["Email sent, items: 0"]
        | Raise e =>
            if is_Exception e
            then ["Failed to send email: " +:+ exn_str e]
            else []
        end.
Proof.
  intros Hkey html. eexists. split; [| reflexivity].
  unfold main. unfold mbind at 1, M_bind at 1, ask at 1.
  unfold mbind at 1, M_bind at 1. rewrite Hkey.
  unfold mbind at 1, M_bind at 1, print at 1, mret at 1, M_ret at 1.
  unfold mbind at 1, M_bind at 1.
  change (aggregator []) with (@nil SearchResult).
  rewrite format_email_html_run. fold html.
  unfold try_except. unfold mbind at 1, M_bind at 1.
  fold (subject_line env). rewrite send_email_html_run. cbn [stdout trace].
  destruct (send_result env _ _) as [[] | e]; simpl.
  - unfold print. simpl. by rewrite <- !(assoc_L (++)).
  - destruct (is_Exception e); simpl.
    + unfold print. simpl. by rewrite <- !(assoc_L (++)).
    + by rewrite ?app_nil_r.
Qed.

Lemma main_without_key_witness :
  let html :=
    ("<h2>Daily Jobs — Entry-level AI (Collected "
       +:+ strftime (now keyless_env) +:+ ")</h2>")
      +:+ "<p>No results found.</p>" in
  ∃ final : list string,
    main keyless_env empty_world
    = (after_handler (send_result keyless_env (subject_line keyless_env) html),
       {| stdout :=
            stdout empty_world
            ++ ["No SERPAPI_KEY provided; please provide one or configure RSS sources."]
            ++ final;
          trace := trace empty_world
                   ++ send_events keyless_env (subject_line keyless_env) html |})
    ∧ final
      = match send_result keyless_env (subject_line keyless_env) html with
        | Ret _ => ["Email sent, items: 0"]
        | Raise e =>
            if is_Exception e
            then ["Failed to send email: " +:+ exn_str e]
            else []
        end.
Proof. apply (main_without_key keyless_env empty_world). reflexivity. Defined.

(** The query loop up to a query whose call raises an exception that does
    not derive from [Exception]. *)
Lemma query_loop_abort env qs1 q qs2 e aggregated w :
  (forall q', q' ∈ qs1 -> value_or_error (provider_result env q')) ->
  provider_result env q = Raise e ->
  is_Exception e = false ->
  query_loop (SERPAPI_KEY env) (qs1 ++ q :: qs2) aggregated env w
  = (Raise e,
     {| stdout := stdout w ++ concat (query_error_lines env <$> qs1);
        trace := trace w ++ (search_event (SERPAPI_KEY env) <$> qs1 ++ [q]) |}).
Proof.
  intros Hqs Hq He. revert aggregated w.
  induction qs1 as [|q1 qs1 IH]; intros aggregated w.
  - cbn [app query_loop]. unfold mbind at 1, M_bind at 1, try_except.
    unfold mbind at 1, M_bind at 1.
    rewrite search_with_serpapi_run. fold (provider_result env q).
    rewrite Hq, He. simpl. by rewrite app_nil_r.
  - cbn [app query_loop]. unfold mbind at 1, M_bind at 1, try_except.
    unfold mbind at 1, M_bind at 1.
    rewrite search_with_serpapi_run. fold (provider_result env q1).
    pose proof (Hqs q1 (list_elem_of_here _ _)) as Herr.
    rewrite !fmap_cons. cbn [concat].
    unfold query_error_lines at 1.
    destruct (provider_result env q1) as [js | e1]; simpl in Herr |- *.
    + run_monad.
      rewrite IH by (intros q' Hq'; apply Hqs; by apply list_elem_of_further).
      simpl. by rewrite <- !(assoc_L (++)).
    + rewrite Herr. run_monad.
      rewrite IH by (intros q' Hq'; apply Hqs; by apply list_elem_of_further).
      simpl. by rewrite <- !(assoc_L (++)).
Qed.

(** X18: an exception of a provider call that does not derive from
    [Exception] is not caught: the run ends with it at that query, the
    later queries are not requested, no mail is attempted and no closing
    line is printed. *)
Theorem provider_interrupt_aborts (env : Env) (w : World)
    (qs1 qs2 : list string) (q : string) (e : exn) :
  truthy (SERPAPI_KEY env) = true ->
  SEARCH_QUERIES = qs1 ++ q :: qs2 ->
  (forall q', q' ∈ qs1 -> value_or_error (provider_result env q')) ->
  provider_result env q = Raise e ->
  is_Exception e = false ->
  main env w
  = (Raise e,
     {| stdout := stdout w ++ concat (query_error_lines env <$> qs1);
        trace := trace w
                 ++ (search_event (SERPAPI_KEY env) <$> qs1 ++ [q]) |}).
Proof.
  intros Hkey Hqs Hok Hq He.
  unfold main. unfold mbind at 1, M_bind at 1, ask at 1.
  unfold mbind at 1, M_bind at 1. rewrite Hkey, Hqs.
  by rewrite (query_loop_abort env qs1 q qs2 e [] w Hok Hq He).
Qed.

Lemma provider_interrupt_aborts_witness :
  main aborting_env empty_world
  = (Raise (Exn false "KeyboardInterrupt"),
     {| stdout :=
          stdout empty_world
          ++ concat (query_error_lines aborting_env <$> take 2 SEARCH_QUERIES);
        trace :=
          trace empty_world
          ++ (search_event (SERPAPI_KEY aborting_env)
                <$> take 2 SEARCH_QUERIES
                    ++ ["site:angel.co "
                          +:+ quoted "machine learning engineer" +:+ " "
                          +:+ quoted "junior"]) |}).
Proof.
  apply (provider_interrupt_aborts aborting_env empty_world
           (take 2 SEARCH_QUERIES) (drop 3 SEARCH_QUERIES)).
  - reflexivity.
  - reflexivity.
  - intros q' Hq'. simpl in Hq'.
    apply elem_of_cons in Hq' as [-> | Hq']; [by vm_compute |].
    apply elem_of_cons in Hq' as [-> | Hq']; [by vm_compute |].
    by apply elem_of_nil in Hq'.
  - vm_compute. reflexivity.
  - reflexivity.
Defined.

(** X19: an exception of the send that does not derive from [Exception]
    is not caught either: the run ends with it, after the session calls,
    and neither the success line nor the failure line is printed. *)
Theorem send_interrupt_propagates (env : Env) (w : World) (html : string)
    (e : exn) :
  provider_errors_only env ->
  (format_email_html (aggregator (collected env)) env w).1 = Ret html ->
  send_result env (subject_line env) html = Raise e ->
  is_Exception e = false ->
  main env w
  = (Raise e,
     {| stdout :=
          stdout w
          ++ (if truthy (SERPAPI_KEY env)
              then concat (query_error_lines env <$> SEARCH_QUERIES)
              else ["No SERPAPI_KEY provided; please provide one or configure RSS sources."]);
        trace :=
          trace w
          ++ (if truthy (SERPAPI_KEY env)
              then search_event (SERPAPI_KEY env) <$> SEARCH_QUERIES
              else [])
          ++ send_events env (subject_line env) html |}).
Proof.
  intros Henv Hf Hs He. rewrite (main_run env w html Henv Hf), Hs.
  cbn [after_handler]. rewrite He. by rewrite app_nil_r.
Qed.

Lemma send_interrupt_propagates_witness :
  main interrupted_env empty_world
  = (Raise (Exn false "KeyboardInterrupt"),
     {| stdout :=
          stdout empty_world
          ++ (if truthy (SERPAPI_KEY interrupted_env)
              then concat (query_error_lines interrupted_env <$> SEARCH_QUERIES)
              else ["No SERPAPI_KEY provided; please provide one or configure RSS sources."]);
        trace :=
          trace empty_world
          ++ (if truthy (SERPAPI_KEY interrupted_env)
              then search_event (SERPAPI_KEY interrupted_env) <$> SEARCH_QUERIES
              else [])
          ++ send_events interrupted_env (subject_line interrupted_env)
               (html_of_run interrupted_env) |}).
Proof.
  apply (send_interrupt_propagates interrupted_env empty_world
           (html_of_run interrupted_env) (Exn false "KeyboardInterrupt")).
  - constructor; simpl.
    + intros _ params _. by destruct (String.eqb _ _).
    + intros _ params _ r. destruct (String.eqb _ _); [done |].
      by intros [= <-].
    + intros _ params _ r. destruct (String.eqb _ _); [done |].
      by intros [= <-].
  - vm_compute. reflexivity.
  - vm_compute. reflexivity.
  - reflexivity.
Defined.

(** X20: when every step of the send succeeds, the run hands exactly one
    message to the mail server, after all the requests: the message
    carries the subject of the run and the HTML of the aggregated results,
    and the line printed last counts as many items as the aggregator
    returned, at most [MAX_RESULTS]. *)
Theorem successful_run (env : Env) (w : World) (html : string) :
  provider_errors_only env ->
  (format_email_html (aggregator (collected env)) env w).1 = Ret html ->
  send_result env (subject_line env) html = Ret tt ->
  ∃ w' : World,
    main env w = (Ret tt, w')
    ∧ trace w'
      = trace w
          ++ (if truthy (SERPAPI_KEY env)
              then search_event (SERPAPI_KEY env) <$> SEARCH_QUERIES
              else [])
          ++ [SmtpConnect (SMTP_HOST env) (SMTP_PORT env); SmtpStartTls;
              SmtpLogin (SMTP_USER env) (SMTP_PASS env);
              SmtpSendmail (SENDER env) (RECIPIENT env)
                {| msg_subject := subject_line env; msg_from := SENDER env;
                   msg_to := RECIPIENT env; msg_html := html |};
              SmtpQuit; SmtpClose]
    ∧ last (stdout w')
      = Some ("Email sent, items: "
                +:+ pretty (length (aggregator (collected env))))
    ∧ length (aggregator (collected env)) ≤ MAX_RESULTS.
Proof.
  intros Henv Hf Hs. eexists. split; [| split; [| split]].
  - rewrite (main_run env w html Henv Hf), Hs. reflexivity.
  - cbn [trace].
    by rewrite (proj2 (send_success_spec (subject_line env) html env) Hs).
  - cbn [stdout]. by rewrite (assoc_L (++)), last_snoc.
  - rewrite aggregator_spec, length_take. lia.
Qed.

Lemma successful_run_witness :
  ∃ w' : World,
    main delivering_env empty_world = (Ret tt, w')
    ∧ trace w'
      = trace empty_world
          ++ (if truthy (SERPAPI_KEY delivering_env)
              then search_event (SERPAPI_KEY delivering_env) <$> SEARCH_QUERIES
              else [])
          ++ [SmtpConnect (SMTP_HOST delivering_env) (SMTP_PORT delivering_env);
              SmtpStartTls;
              SmtpLogin (SMTP_USER delivering_env) (SMTP_PASS delivering_env);
              SmtpSendmail (SENDER delivering_env) (RECIPIENT delivering_env)
                {| msg_subject := subject_line delivering_env;
                   msg_from := SENDER delivering_env;
                   msg_to := RECIPIENT delivering_env;
                   msg_html := html_of_run delivering_env |};
              SmtpQuit; SmtpClose]
    ∧ last (stdout w')
      = Some ("Email sent, items: "
                +:+ pretty (length (aggregator (collected delivering_env))))
    ∧ length (aggregator (collected delivering_env)) ≤ MAX_RESULTS.
Proof.
  apply (successful_run delivering_env empty_world
           (html_of_run delivering_env)).
  - constructor; simpl.
    + intros _ params _. by destruct (String.eqb _ _).
    + intros _ params _ r. destruct (String.eqb _ _); [done |].
      by intros [= <-].
    + intros _ params _ r. destruct (String.eqb _ _); [done |].
      by intros [= <-].
  - vm_compute. reflexivity.
  - vm_compute. reflexivity.
Defined.
